(** * Types associated with cffi support: a shallow embedding

    The development follows [numba/types/cffi.py]: the library type
    [CFFILibraryType], the session type [FFIType], the by-value struct type
    [CFFIStructInstanceType], the pointer type [CFFIPointer] and its
    specialisation [CFFIStructRefType], together with their constructors,
    the [key] property and the conversion queries.  It then turns to
    [numba/tests/cffi_usecases.py]: the initialisers of the module globals
    and the linked list library written in C. *)

From Stdlib Require Import Bool Ascii String List.
From Stdlib Require Import NArith HexadecimalString.
From Stdlib Require HexadecimalPos HexadecimalN.
From stdpp Require Import base gmap strings list.

Local Open Scope string_scope.

(** ** Python results *)

(** The only exception class the module raises, explicitly or through a
    failed attribute access, is [AttributeError]. *)
Inductive Exception : Type :=
| AttributeError (msg : string).

Inductive PyResult (A : Type) : Type :=
| Return (a : A)
| Raise (e : Exception).

Arguments Return {A} a.
Arguments Raise {A} e.

(** ** Conversion verdicts *)

(** Modelled from the spec: the enumeration [Conversion] of the host's
    [typeconv] module, which is not part of the sources at hand.  The spec
    names the verdicts safe, unsafe and no-conversion; the last one is what a
    query answers by returning Python's [None], so a verdict is an
    [option Conversion]. *)
Inductive Conversion : Type :=
| safe
| unsafe.

(** ** The type universe *)

(** [cffi_type] objects handed to [CFFIStructInstanceType]: only their
    [cname] attribute is read. *)
Record CType : Type := { cname : string }.

(** The session object handed to [FFIType]: only its identity [id(ffi)], a
    non-negative integer, is read. *)
Record FFIObject : Type := { py_id : N }.

(** Instances of [CFFILibraryType]. *)
Record CFFILibraryType : Type := {
  _func_names : gset string;
  _lib_name : string;
  lib_type_name : string
}.

(** Instances of [FFIType]. *)
Record FFIType : Type := {
  ffi : FFIObject;
  ffi_type_name : string
}.

(** Instances of [CFFIStructInstanceType]; [struct] is the dictionary the
    constructor leaves empty. *)
Record CFFIStructInstanceType : Type := {
  cffi_type : CType;
  struct : list (string * string);
  instance_type_name : string
}.

(** Types are the instances above, the two pointer classes, and the types of
    the host vocabulary, which are told apart by their class and their name:
    those that carry no [dtype] (scalars, opaque types, the raw pointer),
    and those over an element type, which carry it as their [dtype] (the
    plain pointers of the base class [CPointer], arrays). *)
Inductive Ty : Type :=
| HostType (cls : string) (name : string)
| HostTypeOf (cls : string) (name : string) (dtype : Ty)
| LibraryType (l : CFFILibraryType)
| SessionType (f : FFIType)
| StructInstanceType (s : CFFIStructInstanceType)
| PointerType (p : CFFIPointer)
| StructRefType (r : CFFIStructRefType)
with CFFIPointer : Type :=
| Build_CFFIPointer (dtype : Ty) (owning : bool) (name : string)
with CFFIStructRefType : Type :=
| Build_CFFIStructRefType (super : CFFIPointer) (ptrtype : Ty).

Definition dtype (p : CFFIPointer) : Ty :=
  match p with Build_CFFIPointer d _ _ => d end.

Definition owning (p : CFFIPointer) : bool :=
  match p with Build_CFFIPointer _ o _ => o end.

Definition pointer_name (p : CFFIPointer) : string :=
  match p with Build_CFFIPointer _ _ n => n end.

(** A [CFFIStructRefType] is a [CFFIPointer]: [super] holds the inherited
    attributes. *)
Definition super (r : CFFIStructRefType) : CFFIPointer :=
  match r with Build_CFFIStructRefType p _ => p end.

Definition ptrtype (r : CFFIStructRefType) : Ty :=
  match r with Build_CFFIStructRefType _ t => t end.

(** The [name] attribute every type carries. *)
Definition name (t : Ty) : string :=
  match t with
  | HostType _ n => n
  | HostTypeOf _ n _ => n
  | LibraryType l => lib_type_name l
  | SessionType f => ffi_type_name f
  | StructInstanceType s => instance_type_name s
  | PointerType p => pointer_name p
  | StructRefType r => pointer_name (super r)
  end.

(** Classes, [isinstance] and the inheritance edges of the module:
    [CFFIStructRefType] extends [CFFIPointer], which extends the host's
    [CPointer].  A host class is one whose instances carry no [dtype]
    ([cls_Host]) or one whose instances carry it ([cls_HostOf]). *)
Inductive Class : Type :=
| cls_Host (c : string)
| cls_HostOf (c : string)
| cls_CFFILibraryType
| cls_FFIType
| cls_CFFIStructInstanceType
| cls_CFFIPointer
| cls_CFFIStructRefType.

Definition class_of (t : Ty) : Class :=
  match t with
  | HostType c _ => cls_Host c
  | HostTypeOf c _ _ => cls_HostOf c
  | LibraryType _ => cls_CFFILibraryType
  | SessionType _ => cls_FFIType
  | StructInstanceType _ => cls_CFFIStructInstanceType
  | PointerType _ => cls_CFFIPointer
  | StructRefType _ => cls_CFFIStructRefType
  end.

Definition Class_eqb (c d : Class) : bool :=
  match c, d with
  | cls_Host a, cls_Host b => String.eqb a b
  | cls_HostOf a, cls_HostOf b => String.eqb a b
  | cls_CFFILibraryType, cls_CFFILibraryType => true
  | cls_FFIType, cls_FFIType => true
  | cls_CFFIStructInstanceType, cls_CFFIStructInstanceType => true
  | cls_CFFIPointer, cls_CFFIPointer => true
  | cls_CFFIStructRefType, cls_CFFIStructRefType => true
  | _, _ => false
  end.

Definition issubclass (c d : Class) : bool :=
  Class_eqb c d ||
  match c, d with
  | cls_CFFIStructRefType, cls_CFFIPointer => true
  | cls_CFFIPointer, cls_HostOf b => String.eqb b "CPointer"
  | cls_CFFIStructRefType, cls_HostOf b => String.eqb b "CPointer"
  | _, _ => false
  end.

Definition isinstance (t : Ty) (c : Class) : bool :=
  issubclass (class_of t) c.

(** ** Keys and type equality *)

(** The value of the [key] property.  [CFFIPointer.key] is the pair
    [(self.dtype, self.owning)], inherited unchanged by [CFFIStructRefType];
    the classes that do not override the property answer with their name. *)
Inductive Key : Type :=
| KeyName (n : string)
| KeyPair (d : Ty) (o : bool).

Definition CFFIPointer_key (self : CFFIPointer) : Key :=
  KeyPair (dtype self) (owning self).

Definition key (t : Ty) : Key :=
  match t with
  | PointerType p => CFFIPointer_key p
  | StructRefType r => CFFIPointer_key (super r)
  | _ => KeyName (name t)
  end.

(** The number of pair keys met when going from a type to the pointee in
    its key, and on from there. *)
Fixpoint depth (t : Ty) : nat :=
  match t with
  | PointerType p => S (pointer_depth p)
  | StructRefType r =>
      match r with
      | Build_CFFIStructRefType p _ => S (pointer_depth p)
      end
  | _ => 0
  end
with pointer_depth (p : CFFIPointer) : nat :=
  match p with
  | Build_CFFIPointer d _ _ => depth d
  end.

(** Modelled from the spec: the host's type equality ([==] on types), defined
    with the abstract type class outside the sources at hand.  The spec makes
    the key the identity of a type; two types compare equal when they are
    instances of the same class and their [key]s compare equal, a pair key
    comparing component by component, its first component again as a type.
    [type_eq_upto] follows at most [fuel] pair keys down; [depth] of them
    are all there are (see [type_eq_upto_enough]). *)
Fixpoint type_eq_upto (fuel : nat) (a b : Ty) : bool :=
  Class_eqb (class_of a) (class_of b) &&
  match key a, key b with
  | KeyName n, KeyName n' => String.eqb n n'
  | KeyPair d o, KeyPair d' o' =>
      match fuel with
      | O => false
      | S fuel => type_eq_upto fuel d d' && Bool.eqb o o'
      end
  | _, _ => false
  end.

Definition type_eq (a b : Ty) : bool := type_eq_upto (depth a) a b.

Definition Key_eq (k k' : Key) : bool :=
  match k, k' with
  | KeyName n, KeyName n' => String.eqb n n'
  | KeyPair d o, KeyPair d' o' => type_eq d d' && Bool.eqb o o'
  | _, _ => false
  end.

(** Modelled from the spec: the canonical opaque-pointer type constant of the
    host's base vocabulary, the raw pointer named [void*]. *)
Definition voidptr : Ty := HostType "RawPointer" "void*".

(** ** Library objects and the name pattern *)

(** What [isinstance(getattr(lib, f), BuiltinFunctionType)] looks at: whether
    an attribute value is a compiled function wrapper. *)
Inductive PyObject : Type :=
| BuiltinFunction
| OtherObject.

Definition is_BuiltinFunctionType (o : PyObject) : bool :=
  match o with
  | BuiltinFunction => true
  | OtherObject => false
  end.

(** A library object as the constructor sees it: [dir(lib)],
    [getattr(lib, f)] and [str(lib)]. *)
Record Lib : Type := {
  lib_dir : list string;
  lib_getattr : string -> PyObject;
  lib_str : string
}.

Definition quote : ascii := "'"%char.

(** [strip_prefix p s] consumes the literal [p] at the start of [s]. *)
Fixpoint strip_prefix (p s : string) : option string :=
  match p with
  | EmptyString => Some s
  | String a p' =>
      match s with
      | EmptyString => None
      | String b s' => if Ascii.eqb a b then strip_prefix p' s' else None
      end
  end.

(** [span_not_quote s] splits [s] after its longest run of characters other
    than the quote: what the greedy [[^']+] consumes. *)
Fixpoint span_not_quote (s : string) : string * string :=
  match s with
  | EmptyString => (EmptyString, EmptyString)
  | String a s' =>
      if Ascii.eqb a quote then (EmptyString, s)
      else let (g, rest) := span_not_quote s' in (String a g, rest)
  end.

(** [re.match(r"<Lib object for '([^']+)'>", s)], answering group 1 of the
    match object, or [None] when there is no match.  The match is anchored at
    the start of [s] only.  The group is the longest run of non-quote
    characters: a shorter run would be followed by a non-quote character,
    where the pattern asks for the closing quote, so backtracking never finds
    another match. *)
Definition re_match_group1 (s : string) : option string :=
  match strip_prefix "<Lib object for '" s with
  | None => None
  | Some s1 =>
      let (g, s2) := span_not_quote s1 in
      match g with
      | EmptyString => None
      | String _ _ =>
          match strip_prefix "'>" s2 with
          | None => None
          | Some _ => Some g
          end
      end
  end.

(** The pattern read declaratively: [s] starts with the opening literal, a
    non-empty quote-free [n], and the closing literal. *)
Fixpoint quote_free (n : string) : Prop :=
  match n with
  | EmptyString => True
  | String a n' => a <> quote /\ quote_free n'
  end.

Definition matches_pattern (s n : string) : Prop :=
  n <> EmptyString /\ quote_free n /\
  exists rest, s = "<Lib object for '" +:+ n +:+ "'>" +:+ rest.

(** ** Constructors and methods *)


Definition class_name (c : Class) : string :=
  match c with
  | cls_Host c => c
  | cls_HostOf c => c
  | cls_CFFILibraryType => "CFFILibraryType"
  | cls_FFIType => "FFIType"
  | cls_CFFIStructInstanceType => "CFFIStructInstanceType"
  | cls_CFFIPointer => "CFFIPointer"
  | cls_CFFIStructRefType => "CFFIStructRefType"
  end.

(** The attribute access [t.dtype]: the two pointer classes have it, and
    the host types over an element type. *)
Definition getattr_dtype (t : Ty) : PyResult Ty :=
  match t with
  | HostTypeOf _ _ d => Return d
  | PointerType p => Return (dtype p)
  | StructRefType r => Return (dtype (super r))
  | _ =>
      Raise (AttributeError
        ("'" +:+ class_name (class_of t) +:+
         "' object has no attribute 'dtype'"))
  end.


(** The conversion context of the host, consumed through [can_convert]
    only; like any call it may raise. *)
Record ConversionContext : Type := {
  can_convert : Ty -> Ty -> PyResult (option Conversion)
}.

(** A query answers with a result and the list of [can_convert] calls it
    made on the context, in order. *)
Definition Query (A : Type) : Type := (PyResult A * list (Ty * Ty))%type.

Definition answer {A : Type} (a : A) : Query A := (Return a, []).

Definition ask (typingctx : ConversionContext) (a b : Ty)
  : Query (option Conversion) :=
  (can_convert typingctx a b, [(a, b)]).

Definition result {A : Type} (q : Query A) : PyResult A := fst q.

Definition calls {A : Type} (q : Query A) : list (Ty * Ty) := snd q.

(** The message of the error [get_func_pointer] raises:
    ["Function {} is not present in the library {}".format(func_name,
    self._lib_name)]. *)
Definition not_present_message (func_name lib_name : string) : string :=
  "Function " +:+ func_name +:+ " is not present in the library " +:+ lib_name.

Section Host.

(** What the module takes from the host: native pointer values, the two
    symbol resolvers imported from the host's cffi utilities, and the name
    the base pointer class gives an instance when it is initialised with a
    pointee. *)
Variable NativePointer : Type.
Variable StructPointer : Type.
Variable get_func_pointer : string -> NativePointer.
Variable get_struct_pointer : StructPointer -> NativePointer.
Variable CPointer_name : Ty -> string.

(** *** [CFFILibraryType] *)

Definition CFFILibraryType_init (lib : Lib) : PyResult CFFILibraryType :=
  let func_names : gset string :=
    list_to_set
      (List.filter (fun f => is_BuiltinFunctionType (lib_getattr lib f))
                   (lib_dir lib)) in
  match re_match_group1 (lib_str lib) with
  | None =>
      Raise (AttributeError "'NoneType' object has no attribute 'group'")
  | Some lib_name =>
      Return {| _func_names := func_names;
                _lib_name := lib_name;
                lib_type_name := "cffi_lib<" +:+ lib_name +:+ ">" |}
  end.

Definition CFFILibraryType_has_func
    (self : CFFILibraryType) (func_name : string) : bool :=
  bool_decide (func_name ∈ _func_names self).

Definition CFFILibraryType_get_func_pointer
    (self : CFFILibraryType) (func_name : string) : PyResult NativePointer :=
  if negb (bool_decide (func_name ∈ _func_names self)) then
    Raise (AttributeError (not_present_message func_name (_lib_name self)))
  else Return (get_func_pointer func_name).

(** *** [FFIType] *)


Definition FFIType_get_call_signatures {Signature : Type}
    (self : FFIType) : list Signature * bool :=
  ([], true).

(** *** [CFFIStructInstanceType] *)

Definition CFFIStructInstanceType_init
    (cffi_type : CType) : CFFIStructInstanceType :=
  {| cffi_type := cffi_type;
     struct := [];
     instance_type_name := "<instance> (" +:+ cname cffi_type +:+ ")" |}.

Definition CFFIStructInstanceType_can_convert_to
    (self : CFFIStructInstanceType) (typingctx : ConversionContext)
    (other : Ty) : Query (option Conversion) :=
  if type_eq other voidptr then answer (Some safe) else answer None.

Definition CFFIStructInstanceType_can_convert_from
    (self : CFFIStructInstanceType) (typeingctx : ConversionContext)
    (other : Ty) : Query (option Conversion) :=
  if type_eq other voidptr then answer (Some safe) else answer None.

(** *** [CFFIPointer] *)

(** The default of the [owning] parameter. *)
Definition owning_default : bool := false.

Definition CFFIPointer_init (dtype : Ty) (owning : bool) : CFFIPointer :=
  let owning_str := if owning then "(Owning)" else EmptyString in
  Build_CFFIPointer dtype owning
    ("<ffi>(" +:+ CPointer_name dtype +:+ "*)" +:+ owning_str).

Definition CFFIPointer_get_pointer
    (struct_ptr : StructPointer) : NativePointer :=
  get_struct_pointer struct_ptr.

(** *** [CFFIStructRefType] *)

(** [CFFIStructRefType_init] is the initialiser [__init__]: what it sets up
    for a struct reference type.  Handing out one object for equal types,
    which the host's registry does on top of it, is not part of it. *)

Definition CFFIStructRefType_init
    (ptrtype : Ty) : PyResult CFFIStructRefType :=
  match getattr_dtype ptrtype with
  | Raise e => Raise e
  | Return d =>
      let base := CFFIPointer_init d owning_default in
      Return
        (Build_CFFIStructRefType
           (Build_CFFIPointer (dtype base) (owning base)
              ("Ref#" +:+ name (dtype base)))
           ptrtype)
  end.

Definition CFFIStructRefType_can_convert_to
    (self : CFFIStructRefType) (typingctx : ConversionContext)
    (other : Ty) : Query (option Conversion) :=
  if isinstance other cls_CFFIStructRefType
     || isinstance other cls_CFFIStructInstanceType
  then ask typingctx (dtype (super self)) other
  else answer None.

Definition CFFIStructRefType_can_convert_from
    (self : CFFIStructRefType) (typingctx : ConversionContext)
    (other : Ty) : Query (option Conversion) :=
  if isinstance other cls_CFFIStructRefType
     || isinstance other cls_CFFIStructInstanceType
  then ask typingctx (dtype (super self)) other
  else answer None.

End Host.

(** ** Struct types *)

(** The arguments the struct reference queries delegate on. *)
Definition is_struct_type (X : Ty) : Prop :=
  (exists r, X = StructRefType r) \/ (exists s, X = StructInstanceType s).

(** ** Sample values *)

Definition int32 : Ty := HostType "Integer" "int32".

(** A naming of base pointers, to run the constructors on. *)
Definition sample_CPointer_name (d : Ty) : string := name d +:+ "*".

Definition borrowed_int32 : CFFIPointer :=
  CFFIPointer_init sample_CPointer_name int32 false.

Definition owning_int32 : CFFIPointer :=
  CFFIPointer_init sample_CPointer_name int32 true.

Definition ref_int32 : CFFIStructRefType :=
  Build_CFFIStructRefType
    (Build_CFFIPointer int32 false "Ref#int32") (PointerType borrowed_int32).

Definition node_struct : CFFIStructInstanceType :=
  CFFIStructInstanceType_init {| cname := "struct Node" |}.

(** A context that tells a host type from the types of this module in its
    second argument. *)
Definition picky_ctx : ConversionContext :=
  {| can_convert := fun _ b =>
       match b with
       | HostType _ _ => Return (Some unsafe)
       | _ => Return (Some safe)
       end |}.

(** A library object exporting [sin] and [cos] next to a plain attribute. *)
Definition mathlib : Lib :=
  {| lib_dir := ["__name__"; "cos"; "sin"];
     lib_getattr := fun f =>
       if String.eqb f "sin" || String.eqb f "cos"
       then BuiltinFunction else OtherObject;
     lib_str := "<Lib object for 'mathlib'>" |}.

(** The type the constructor builds from [mathlib]. *)
Definition mathlib_type : CFFILibraryType :=
  {| _func_names := list_to_set ["cos"; "sin"];
     _lib_name := "mathlib";
     lib_type_name := "cffi_lib<mathlib>" |}.

Definition libfoo : Lib :=
  {| lib_dir := [];
     lib_getattr := fun _ => OtherObject;
     lib_str := "<Lib object for 'libfoo'>" |}.

(** An object whose textual form is not that of a library. *)
Definition not_a_lib : Lib :=
  {| lib_dir := ["sin"];
     lib_getattr := fun _ => BuiltinFunction;
     lib_str := "<module 'math' (built-in)>" |}.

(** A resolver that answers with the symbol it was asked for. *)
Definition sample_get_func_pointer (func_name : string) : string :=
  "&" +:+ func_name.

(** The set of names [dir(lib)] lists whose attribute is a compiled function
    wrapper. *)
Definition exported (lib : Lib) (n : string) : Prop :=
  In n (lib_dir lib) /\ lib_getattr lib n = BuiltinFunction.

(** A second library object with the textual form of [mathlib] and nothing
    to export, and the type built from it. *)
Definition mathlib_bare : Lib :=
  {| lib_dir := [];
     lib_getattr := fun _ => OtherObject;
     lib_str := "<Lib object for 'mathlib'>" |}.

Definition mathlib_bare_type : CFFILibraryType :=
  {| _func_names := list_to_set [];
     _lib_name := "mathlib";
     lib_type_name := "cffi_lib<mathlib>" |}.

(** * The cffi use cases: module initialisation

    [numba/tests/cffi_usecases.py] keeps the loaded modules in module
    globals, which [init] and [init_ool] fill on their first call. *)

Module Usecases.

#[local] Set Implicit Arguments.

Section Loaders.

(** Session objects and native function wrappers are the host's. *)
Variable Session : Type.
Variable Function : Type.

(** What a module global is bound to. *)
Inductive Object : Type :=
| PyNone
| SessionObject (s : Session)
| FunctionObject (f : Function).

(** A loaded library, seen through its attribute lookup: the wrapper of that
    name, or [None] when the lookup raises. *)
Definition Namespace : Type := string -> option Function.

(** The two loaders build and load a module, which is outside the model:
    each is a function of the number of loads attempted before, so that
    every load may answer with objects of its own, or raise ([None]).
    [load_inline_module] answers with the session and the library,
    [load_ool_module] with the session and the module, seen here through
    its [lib] attribute ([None] when reading it raises). *)
Variable load_inline_module : nat -> option (Session * Namespace).
Variable load_ool_module : nat -> option (Session * option Namespace).

(** How a call ends. *)
Inductive Ending : Type :=
| Returned
| Raised.

(** The module globals, a dictionary from names to objects in which an
    unbound name has no entry, and the number of loads attempted so far. *)
Record State : Type := {
  globals : gmap string Object;
  inline_loads : nat;
  ool_loads : nat
}.

(** The state after import: [ffi = ffi_ool = None], nothing else bound. *)
Definition imported : State :=
  {| globals := <["ffi" := PyNone]> (<["ffi_ool" := PyNone]> ∅);
     inline_loads := 0;
     ool_loads := 0 |}.

(** The assignment [name = o] to a global. *)
Definition bind_global (name : string) (o : Object) (g : State) : State :=
  {| globals := <[name := o]> (globals g);
     inline_loads := inline_loads g;
     ool_loads := ool_loads g |}.

Definition inline_load_attempted (g : State) : State :=
  {| globals := globals g;
     inline_loads := S (inline_loads g);
     ool_loads := ool_loads g |}.

Definition ool_load_attempted (g : State) : State :=
  {| globals := globals g;
     inline_loads := inline_loads g;
     ool_loads := S (ool_loads g) |}.

(** The assignment [target = value.attr]: reading the attribute may raise,
    and then nothing is assigned. *)
Definition assign_attr (value : option Namespace) (target attr : string)
    (g : State) : State * Ending :=
  match value with
  | None => (g, Raised)
  | Some ns =>
      match ns attr with
      | None => (g, Raised)
      | Some f => (bind_global target (FunctionObject f) g, Returned)
      end
  end.

(** A sequence of such assignments, each a pair of target and attribute;
    the first one that raises ends it. *)
Fixpoint assign_attrs (value : option Namespace)
    (pairs : list (string * string)) (g : State) : State * Ending :=
  match pairs with
  | [] => (g, Returned)
  | (target, attr) :: rest =>
      match assign_attr value target attr g with
      | (g', Returned) => assign_attrs value rest g'
      | (g', Raised) => (g', Raised)
      end
  end.

(** The assignments of [init] after the load, in their order. *)
Definition inline_wrappers : list (string * string) :=
  [("cffi_sin", "_numba_test_sin");
   ("cffi_cos", "_numba_test_cos");
   ("cffi_bool", "_numba_test_boolean")].

(** The assignments of [init_ool] after the load, in their order. *)
Definition ool_wrappers : list (string * string) :=
  [("cffi_sin_ool", "sin");
   ("cffi_cos_ool", "cos");
   ("cffi_foo", "foo");
   ("cffi_bool_ool", "boolean");
   ("vsSin", "vsSin");
   ("vdSin", "vdSin");
   ("vector_real", "vector_real");
   ("vector_imag", "vector_imag")].

(** The globals each initialiser declares. *)
Definition inline_names : list string := "ffi" :: inline_wrappers.*1.
Definition ool_names : list string := "ffi_ool" :: ool_wrappers.*1.

(** [init()].  Reading an unbound [ffi] raises; the tuple assignment binds
    [ffi] before the wrappers are read from [dll]. *)
Definition init (g : State) : State * Ending :=
  match globals g !! "ffi" with
  | None => (g, Raised)
  | Some PyNone =>
      match load_inline_module (inline_loads g) with
      | None => (inline_load_attempted g, Raised)
      | Some (ffi, dll) =>
          assign_attrs (Some dll) inline_wrappers
            (bind_global "ffi" (SessionObject ffi) (inline_load_attempted g))
      end
  | Some _ => (g, Returned)
  end.

(** [init_ool()], with [mod.lib] read anew in each assignment. *)
Definition init_ool (g : State) : State * Ending :=
  match globals g !! "ffi_ool" with
  | None => (g, Raised)
  | Some PyNone =>
      match load_ool_module (ool_loads g) with
      | None => (ool_load_attempted g, Raised)
      | Some (ffi_ool, mod_lib) =>
          assign_attrs mod_lib ool_wrappers
            (bind_global "ffi_ool" (SessionObject ffi_ool)
               (ool_load_attempted g))
      end
  | Some _ => (g, Returned)
  end.

End Loaders.

Arguments PyNone {Session Function}.
Arguments SessionObject {Session Function} s.
Arguments FunctionObject {Session Function} f.
Arguments imported {Session Function}.

(** Loaders to run the initialisers on: the session is the number of the
    load, the wrappers are the names of their symbols.  The first load of
    the inline module raises, the second gives a library without
    [_numba_test_cos], the later ones a complete library. *)
Definition sample_load_inline (n : nat) : option (nat * Namespace string) :=
  match n with
  | 0 => None
  | 1 => Some (n, fun attr =>
                    if String.eqb attr "_numba_test_cos" then None
                    else Some attr)
  | _ => Some (n, fun attr => Some attr)
  end.

Definition sample_load_ool (n : nat)
  : option (nat * option (Namespace string)) :=
  Some (n, Some (fun attr => Some attr)).

End Usecases.

(** * The cffi use cases: the linked list library

    The C source [load_ool_linkedlist] compiles: singly linked lists of
    [int32_t] values behind a [Head], over an explicit memory. *)

Module LinkedList.

(** Pointers: an address, or [NULL]. *)
Definition address : Type := positive.
Definition pointer : Type := option address.

(** [struct Node] and [struct Head]. *)
Record Node : Type := { value : Z; next : pointer }.
Record Head : Type := { node : pointer }.

(** The allocated nodes and heads by address; an address outside a map is
    not allocated, or was freed. *)
Record Memory : Type := {
  nodes : gmap address Node;
  heads : gmap address Head
}.

(** What C leaves undefined shows as a crash: going through [NULL], going
    through or freeing an address that is not allocated, and overflowing a
    signed addition. *)
Inductive Fault : Type :=
| NullDereference
| InvalidAccess
| SignedOverflow.

Inductive Outcome (A : Type) : Type :=
| Done (a : A)
| Crashed (f : Fault)
| OutOfFuel.

Arguments Done {A} a.
Arguments Crashed {A} f.
Arguments OutOfFuel {A}.

Definition bind {A B : Type} (o : Outcome A) (k : A -> Outcome B)
  : Outcome B :=
  match o with
  | Done a => k a
  | Crashed f => Crashed f
  | OutOfFuel => OutOfFuel
  end.

Definition INT32_MIN : Z := -2147483648.
Definition INT32_MAX : Z := 2147483647.

(** [*p] for a [Node*] and for a [Head*]. *)
Definition load_node (m : Memory) (p : pointer) : Outcome Node :=
  match p with
  | None => Crashed NullDereference
  | Some a =>
      match nodes m !! a with
      | Some nd => Done nd
      | None => Crashed InvalidAccess
      end
  end.

Definition load_head (m : Memory) (p : pointer) : Outcome Head :=
  match p with
  | None => Crashed NullDereference
  | Some a =>
      match heads m !! a with
      | Some hd => Done hd
      | None => Crashed InvalidAccess
      end
  end.

(** [find_by_val(value, node)]; one unit of fuel per call. *)
Fixpoint find_by_val (fuel : nat) (m : Memory) (val : Z) (p : pointer)
  : Outcome pointer :=
  match fuel with
  | O => OutOfFuel
  | S fuel =>
      match p with
      | None => Done None
      | Some _ =>
          bind (load_node m p) (fun nd =>
            if Z.eqb (value nd) val then Done p
            else find_by_val fuel m val (next nd))
      end
  end.

(** [list_new()]; [new] is what [malloc] answers. *)
Definition list_new (m : Memory) (new : pointer) : Outcome (Memory * pointer) :=
  match new with
  | None => Crashed NullDereference
  | Some h =>
      Done ({| nodes := nodes m; heads := <[h := {| node := None |}]> (heads m) |},
            Some h)
  end.

(** [free(p)] for a node and for a head. *)
Definition free_node (m : Memory) (a : address) : Outcome Memory :=
  match nodes m !! a with
  | Some _ => Done {| nodes := delete a (nodes m); heads := heads m |}
  | None => Crashed InvalidAccess
  end.

Definition free_head (m : Memory) (a : address) : Outcome Memory :=
  match heads m !! a with
  | Some _ => Done {| nodes := nodes m; heads := delete a (heads m) |}
  | None => Crashed InvalidAccess
  end.

(** [delete_node(node)]; one unit of fuel per call. *)
Fixpoint delete_node (fuel : nat) (m : Memory) (p : pointer)
  : Outcome Memory :=
  match fuel with
  | O => OutOfFuel
  | S fuel =>
      match p with
      | None => Done m
      | Some a =>
          bind (load_node m p) (fun nd =>
          bind (delete_node fuel m (next nd)) (fun m' =>
            free_node m' a))
      end
  end.

(** The loop of [list_len]: [while (++len, (n = n->next) != NULL);], one
    unit of fuel per round. *)
Fixpoint list_len_loop (fuel : nat) (m : Memory) (n : pointer) (len : Z)
  : Outcome Z :=
  match fuel with
  | O => OutOfFuel
  | S fuel =>
      if Z.leb INT32_MAX len then Crashed SignedOverflow
      else
        let len := (len + 1)%Z in
        bind (load_node m n) (fun nd =>
          match next nd with
          | None => Done len
          | Some a => list_len_loop fuel m (Some a) len
          end)
  end.

Definition list_len (fuel : nat) (m : Memory) (head : pointer) : Outcome Z :=
  bind (load_head m head) (fun hd =>
    list_len_loop fuel m (node hd) 0).

(** The loop of [list_sum]:
    [do { sum += n->value; n = n->next; } while (n != NULL);]. *)
Fixpoint list_sum_loop (fuel : nat) (m : Memory) (n : pointer) (sum : Z)
  : Outcome Z :=
  match fuel with
  | O => OutOfFuel
  | S fuel =>
      bind (load_node m n) (fun nd =>
        let sum := (sum + value nd)%Z in
        if Z.ltb sum INT32_MIN || Z.ltb INT32_MAX sum
        then Crashed SignedOverflow
        else
          match next nd with
          | None => Done sum
          | Some a => list_sum_loop fuel m (Some a) sum
          end)
  end.

Definition list_sum (fuel : nat) (m : Memory) (head : pointer) : Outcome Z :=
  bind (load_head m head) (fun hd =>
    list_sum_loop fuel m (node hd) 0).

(** [delete_list(head)]. *)
Definition delete_list (fuel : nat) (m : Memory) (head : pointer)
  : Outcome Memory :=
  bind (load_head m head) (fun hd =>
  bind (delete_node fuel m (node hd)) (fun m' =>
    match head with
    | None => Crashed NullDereference
    | Some h => free_head m' h
    end)).

(** A [Node**]: the [node] field of a head or the [next] field of a node. *)
Inductive NodePtrPtr : Type :=
| HeadNode (h : address)
| NodeNext (a : address).

Definition load_ptr (m : Memory) (pp : NodePtrPtr) : Outcome pointer :=
  match pp with
  | HeadNode h => bind (load_head m (Some h)) (fun hd => Done (node hd))
  | NodeNext a => bind (load_node m (Some a)) (fun nd => Done (next nd))
  end.

Definition store_ptr (m : Memory) (pp : NodePtrPtr) (p : pointer)
  : Outcome Memory :=
  match pp with
  | HeadNode h =>
      bind (load_head m (Some h)) (fun _ =>
        Done {| nodes := nodes m;
                heads := <[h := {| node := p |}]> (heads m) |})
  | NodeNext a =>
      bind (load_node m (Some a)) (fun nd =>
        Done {| nodes := <[a := {| value := value nd; next := p |}]> (nodes m);
                heads := heads m |})
  end.

(** The loop of [list_append]:
    [while ( *node_ptr != NULL) node_ptr = &( *node_ptr)->next;]. *)
Fixpoint list_append_walk (fuel : nat) (m : Memory) (node_ptr : NodePtrPtr)
  : Outcome NodePtrPtr :=
  match fuel with
  | O => OutOfFuel
  | S fuel =>
      bind (load_ptr m node_ptr) (fun p =>
        match p with
        | None => Done node_ptr
        | Some a => list_append_walk fuel m (NodeNext a)
        end)
  end.

(** [list_append] from a given [node_ptr] on: the loop, then the three
    assignments through [*node_ptr]; [new] is what [malloc] answers, a node
    whose fields hold nothing until they are assigned. *)
Definition list_append_from (fuel : nat) (m : Memory) (node_ptr : NodePtrPtr)
    (val : Z) (new : pointer) : Outcome Memory :=
  bind (list_append_walk fuel m node_ptr) (fun node_ptr =>
  bind (store_ptr m node_ptr new) (fun m =>
  bind (load_ptr m node_ptr) (fun p =>
    match p with
    | None => Crashed NullDereference
    | Some a =>
        Done {| nodes := <[a := {| value := val; next := None |}]> (nodes m);
                heads := heads m |}
    end))).

(** [list_append(head, value)]. *)
Definition list_append (fuel : nat) (m : Memory) (head : pointer)
    (val : Z) (new : pointer) : Outcome Memory :=
  match head with
  | None => Crashed NullDereference
  | Some h => list_append_from fuel m (HeadNode h) val new
  end.

(** [is_list m p cells]: from [p] on, the memory holds the nodes [cells],
    each an address with the value stored there, the last one pointing to
    [NULL]. *)
Fixpoint is_list (m : Memory) (p : pointer) (cells : list (address * Z))
  : Prop :=
  match cells with
  | [] => p = None
  | (a, v) :: rest =>
      p = Some a /\
      exists q, nodes m !! a = Some {| value := v; next := q |} /\
                is_list m q rest
  end.

(** The address of the first cell holding [val]. *)
Fixpoint first_with_value (val : Z) (cells : list (address * Z)) : pointer :=
  match cells with
  | [] => None
  | (a, v) :: rest =>
      if Z.eqb v val then Some a else first_with_value val rest
  end.

(** No partial sum of the values, started from [sum], leaves [int32_t]. *)
Fixpoint sums_fit (sum : Z) (cells : list (address * Z)) : Prop :=
  match cells with
  | [] => True
  | (_, v) :: rest =>
      (INT32_MIN <= sum + v <= INT32_MAX)%Z /\ sums_fit (sum + v) rest
  end.

Definition total (cells : list (address * Z)) : Z :=
  foldr (fun c acc => (c.2 + acc)%Z) 0%Z cells.

(** A memory to run the functions on: a head at address 1 over the list
    [5, 7] at addresses 10 and 11, and an empty head at address 2. *)
Definition sample_memory : Memory :=
  {| nodes := <[10%positive := {| value := 5; next := Some 11%positive |}]>
                (<[11%positive := {| value := 7; next := None |}]> ∅);
     heads := <[1%positive := {| node := Some 10%positive |}]>
                (<[2%positive := {| node := None |}]> ∅) |}.

Definition sample_cells : list (address * Z) :=
  [(10%positive, 5%Z); (11%positive, 7%Z)].

End LinkedList.

(** * Properties *)

(** ** Type equality *)

Lemma Class_eqb_refl (c : Class) : Class_eqb c c = true.
Proof. destruct c; simpl; try reflexivity; apply String.eqb_refl. Qed.

(** Fuel beyond the depth of the first type changes nothing. *)
Lemma type_eq_upto_enough (n : nat) :
  forall a b, depth a <= n ->
    type_eq_upto n a b = type_eq_upto (depth a) a b.
Proof.
  induction n as [|n IH]; intros a b Hn.
  - now replace (depth a) with 0 by lia.
  - destruct a as [c m|c m d|l|f|s|[d o m]|[[d o m] t]]; try reflexivity;
      simpl in Hn; simpl;
      (destruct (key b) as [m'|d' o']; [reflexivity|]);
      now rewrite (IH d d') by lia.
Qed.


Lemma type_eq_struct_ref (r r' : CFFIStructRefType) :
  type_eq (StructRefType r) (StructRefType r')
    = type_eq (dtype (super r)) (dtype (super r'))
      && Bool.eqb (owning (super r)) (owning (super r')).
Proof.
  destruct r as [[d o m] t], r' as [[d' o' m'] t']. reflexivity.
Qed.

Lemma type_eq_upto_refl (n : nat) :
  forall t, depth t <= n -> type_eq_upto n t t = true.
Proof.
  induction n as [|n IH]; intros t Hn;
    destruct t as [c m|c m d|l|f|s|[d o m]|[[d o m] t]];
    simpl in Hn; simpl; rewrite ?String.eqb_refl; try reflexivity; try lia;
    rewrite IH by lia; apply Bool.eqb_reflx.
Qed.

Lemma type_eq_refl (t : Ty) : type_eq t t = true.
Proof. now apply type_eq_upto_refl. Qed.

(** Equality is "same class and equal keys". *)
Lemma type_eq_class_key (a b : Ty) :
  type_eq a b = Class_eqb (class_of a) (class_of b) && Key_eq (key a) (key b).
Proof.
  destruct a as [c m|c m d|l|f|s|[d o m]|[[d o m] t]]; try reflexivity;
    unfold type_eq; simpl; now destruct (key b).
Qed.

Lemma type_eq_voidptr (t : Ty) : type_eq t voidptr = true <-> t = voidptr.
Proof.
  split.
  - destruct t as [c n|c n d|l|f|s|[d o m]|[[d o m] t]];
      unfold type_eq; simpl; try discriminate.
    intros H. apply andb_true_iff in H as [Hc Hn].
    apply String.eqb_eq in Hc, Hn. now subst.
  - intros ->. reflexivity.
Qed.

Lemma type_eq_not_voidptr (t : Ty) : type_eq t voidptr = false <-> t <> voidptr.
Proof.
  rewrite <- type_eq_voidptr. destruct (type_eq t voidptr); split; congruence.
Qed.

(** ** The name pattern *)

Lemma strip_prefix_app (p r : string) : strip_prefix p (p +:+ r) = Some r.
Proof.
  induction p as [|a p IH]; simpl; [reflexivity|].
  now rewrite Ascii.eqb_refl.
Qed.

Lemma strip_prefix_Some (p s r : string) :
  strip_prefix p s = Some r -> s = p +:+ r.
Proof.
  revert s. induction p as [|a p IH]; intros s; simpl.
  - now intros [= ->].
  - destruct s as [|b s]; [discriminate|].
    destruct (Ascii.eqb a b) eqn:E; [|discriminate].
    apply Ascii.eqb_eq in E. subst b.
    intros H. change (String a s = String a (p +:+ r)). f_equal. now apply IH.
Qed.

Lemma span_not_quote_stops (n r : string) :
  quote_free n ->
  span_not_quote (n +:+ String quote r) = (n, String quote r).
Proof.
  induction n as [|a n IH]; simpl.
  - reflexivity.
  - intros [Hne Hq].
    destruct (Ascii.eqb a quote) eqn:E.
    + apply Ascii.eqb_eq in E. contradiction.
    + now rewrite IH.
Qed.

Lemma span_not_quote_split (s g r : string) :
  span_not_quote s = (g, r) -> s = g +:+ r /\ quote_free g.
Proof.
  revert g r. induction s as [|a s IH]; intros g r; simpl.
  - intros [= <- <-]. now split.
  - destruct (Ascii.eqb a quote) eqn:E.
    + intros [= <- <-]. now split.
    + destruct (span_not_quote s) as [g' r'] eqn:S.
      intros [= <- <-].
      destruct (IH _ _ eq_refl) as [-> Hq].
      split; [reflexivity|]. simpl. split; [|exact Hq].
      intros ->. rewrite Ascii.eqb_refl in E. discriminate.
Qed.

(** The matcher finds exactly the names the pattern describes. *)
Lemma re_match_group1_sound (s n : string) :
  re_match_group1 s = Some n -> matches_pattern s n.
Proof.
  unfold re_match_group1.
  destruct (strip_prefix _ s) as [s1|] eqn:P1; [|discriminate].
  destruct (span_not_quote s1) as [g s2] eqn:S.
  destruct g as [|a g]; [discriminate|].
  destruct (strip_prefix _ s2) as [rest|] eqn:P2; [|discriminate].
  intros [= <-].
  apply strip_prefix_Some in P1, P2.
  apply span_not_quote_split in S as [S Hq].
  split; [discriminate|]. split; [exact Hq|].
  exists rest. now rewrite P1, S, P2.
Qed.

Lemma re_match_group1_complete (s n : string) :
  matches_pattern s n -> re_match_group1 s = Some n.
Proof.
  intros (Hne & Hq & rest & ->).
  unfold re_match_group1. rewrite strip_prefix_app.
  change ("'>" +:+ rest) with (String quote (String ">" rest)).
  rewrite span_not_quote_stops by exact Hq.
  destruct n as [|a n]; [contradiction|].
  reflexivity.
Qed.

Lemma re_match_group1_None (s : string) :
  re_match_group1 s = None <-> forall n, ~ matches_pattern s n.
Proof.
  split.
  - intros H n Hm. apply re_match_group1_complete in Hm. congruence.
  - intros H. destruct (re_match_group1 s) as [n|] eqn:E; [|reflexivity].
    apply re_match_group1_sound in E. now apply H in E.
Qed.

(** ** Conversion queries of [CFFIStructRefType] *)

Lemma isinstance_struct_true (X : Ty) :
  isinstance X cls_CFFIStructRefType
  || isinstance X cls_CFFIStructInstanceType = true <-> is_struct_type X.
Proof.
  unfold is_struct_type. split.
  - destruct X; simpl; try discriminate; eauto.
  - intros [[r ->]|[s ->]]; reflexivity.
Qed.

Lemma isinstance_struct_false (X : Ty) :
  isinstance X cls_CFFIStructRefType
  || isinstance X cls_CFFIStructInstanceType = false <-> ~ is_struct_type X.
Proof.
  rewrite <- isinstance_struct_true.
  destruct (_ || _); split; congruence.
Qed.

(** C1, as the code has it: for a struct reference type with pointee [P],
    both queries on a struct reference or struct instance type [X] answer
    with the context's verdict for [(P, X)], [X] itself being the second
    argument, after exactly that one call; on any other [X] they answer
    no-conversion and make no call on the context. *)
Theorem StructRef_can_convert_delegates_other
    (self : CFFIStructRefType) (ctx : ConversionContext) :
  let P := dtype (super self) in
  (forall X, is_struct_type X ->
     CFFIStructRefType_can_convert_to self ctx X
       = (can_convert ctx P X, [(P, X)]) /\
     CFFIStructRefType_can_convert_from self ctx X
       = (can_convert ctx P X, [(P, X)])) /\
  (forall X, ~ is_struct_type X ->
     CFFIStructRefType_can_convert_to self ctx X = (Return None, []) /\
     CFFIStructRefType_can_convert_from self ctx X = (Return None, [])).
Proof.
  intros P. split; intros X HX.
  - apply isinstance_struct_true in HX.
    unfold CFFIStructRefType_can_convert_to, CFFIStructRefType_can_convert_from.
    rewrite HX. now split.
  - apply isinstance_struct_false in HX.
    unfold CFFIStructRefType_can_convert_to, CFFIStructRefType_can_convert_from.
    rewrite HX. now split.
Qed.

Lemma StructRef_can_convert_delegates_other_witness :
  (CFFIStructRefType_can_convert_to ref_int32 picky_ctx
     (StructInstanceType node_struct)
     = (Return (Some safe), [(int32, StructInstanceType node_struct)]) /\
   CFFIStructRefType_can_convert_from ref_int32 picky_ctx
     (StructInstanceType node_struct)
     = (Return (Some safe), [(int32, StructInstanceType node_struct)])) /\
  (CFFIStructRefType_can_convert_to ref_int32 picky_ctx int32
     = (Return None, []) /\
   CFFIStructRefType_can_convert_from ref_int32 picky_ctx int32
     = (Return None, [])).
Proof.
  split.
  - apply (proj1 (StructRef_can_convert_delegates_other ref_int32 picky_ctx)
             (StructInstanceType node_struct)).
    right. exists node_struct. reflexivity.
  - apply (proj2 (StructRef_can_convert_delegates_other ref_int32 picky_ctx)
             int32).
    intros [[r Hr]|[s Hs]]; discriminate.
Defined.

(** C1 with the pointee of [X] as the second argument does not hold: for the
    struct reference type [Ref#int32] as [X], whose pointee is [int32], the
    answer is the verdict of the context for [(int32, X)], which differs
    from its verdict for [(int32, int32)]. *)
Lemma StructRef_can_convert_pointee_counterexample :
  CFFIStructRefType_init sample_CPointer_name (PointerType borrowed_int32)
    = Return ref_int32 /\
  is_struct_type (StructRefType ref_int32) /\
  getattr_dtype (StructRefType ref_int32) = Return int32 /\
  result (CFFIStructRefType_can_convert_to ref_int32 picky_ctx
            (StructRefType ref_int32))
    <> can_convert picky_ctx (dtype (super ref_int32)) int32.
Proof.
  split; [reflexivity|].
  split; [left; exists ref_int32; reflexivity|].
  split; [reflexivity|].
  discriminate.
Qed.

(** ** Conversion queries of [CFFIStructInstanceType] *)

(** C2: a struct instance type converts to, and from, the opaque pointer type
    [voidptr] safely and to or from nothing else; neither query calls the
    context. *)
Theorem StructInstance_can_convert_voidptr_only
    (self : CFFIStructInstanceType) (ctx : ConversionContext) (T : Ty) :
  (CFFIStructInstanceType_can_convert_to self ctx T = (Return (Some safe), [])
     <-> T = voidptr) /\
  (CFFIStructInstanceType_can_convert_to self ctx T = (Return None, [])
     <-> T <> voidptr) /\
  (CFFIStructInstanceType_can_convert_from self ctx T
     = (Return (Some safe), []) <-> T = voidptr) /\
  (CFFIStructInstanceType_can_convert_from self ctx T = (Return None, [])
     <-> T <> voidptr).
Proof.
  unfold CFFIStructInstanceType_can_convert_to,
    CFFIStructInstanceType_can_convert_from, answer.
  rewrite <- type_eq_voidptr.
  destruct (type_eq T voidptr); repeat split; congruence.
Qed.

(** ** Equality of pointer types *)




(** ** The library type *)

Lemma is_BuiltinFunctionType_true (o : PyObject) :
  is_BuiltinFunctionType o = true <-> o = BuiltinFunction.
Proof. destruct o; simpl; split; congruence. Qed.

(** The constructor records exactly the exported names. *)
Lemma CFFILibraryType_init_func_names (lib : Lib) (self : CFFILibraryType) :
  CFFILibraryType_init lib = Return self ->
  forall n, n ∈ _func_names self <-> exported lib n.
Proof.
  unfold CFFILibraryType_init, exported.
  destruct (re_match_group1 (lib_str lib)) as [lib_name|]; [|discriminate].
  intros [= <-] n. simpl.
  rewrite elem_of_list_to_set, list_elem_of_In, filter_In.
  now rewrite is_BuiltinFunctionType_true.
Qed.

(** The constructor succeeds on every textual form the pattern describes, and
    records the name inside the quotes. *)
Lemma CFFILibraryType_init_matches (lib : Lib) (n : string) :
  matches_pattern (lib_str lib) n ->
  exists self,
    CFFILibraryType_init lib = Return self /\
    _lib_name self = n /\
    lib_type_name self = "cffi_lib<" +:+ n +:+ ">".
Proof.
  intros H. apply re_match_group1_complete in H.
  unfold CFFILibraryType_init. rewrite H.
  eexists. split; [reflexivity|]. now split.
Qed.

(** C4: [has_func] is membership in the set of exported names recorded at
    construction; [get_func_pointer] raises the attribute error naming the
    function and the library exactly when [has_func] is false, and otherwise
    returns what the symbol resolver produces for the name. *)
Theorem library_has_func_get_func_pointer
    (NativePointer : Type) (get_func_pointer : string -> NativePointer)
    (lib : Lib) (self : CFFILibraryType) (n : string) :
  CFFILibraryType_init lib = Return self ->
  (CFFILibraryType_has_func self n = true <-> n ∈ _func_names self) /\
  (n ∈ _func_names self <-> exported lib n) /\
  ((exists e, CFFILibraryType_get_func_pointer NativePointer get_func_pointer
                self n = Raise e)
     <-> CFFILibraryType_has_func self n = false) /\
  (CFFILibraryType_has_func self n = false ->
     CFFILibraryType_get_func_pointer NativePointer get_func_pointer self n
       = Raise (AttributeError (not_present_message n (_lib_name self)))) /\
  (CFFILibraryType_has_func self n = true ->
     CFFILibraryType_get_func_pointer NativePointer get_func_pointer self n
       = Return (get_func_pointer n)).
Proof.
  intros Hinit.
  unfold CFFILibraryType_has_func, CFFILibraryType_get_func_pointer.
  split; [apply bool_decide_eq_true|].
  split; [now apply CFFILibraryType_init_func_names|].
  destruct (bool_decide (n ∈ _func_names self)); simpl.
  - split; [|split; [discriminate|reflexivity]].
    split; [intros [e He]|]; discriminate.
  - split; [|split; [reflexivity|discriminate]].
    split; [reflexivity|]. intros _. eexists. reflexivity.
Qed.

Lemma library_has_func_get_func_pointer_witness :
  CFFILibraryType_init mathlib = Return mathlib_type /\
  CFFILibraryType_has_func mathlib_type "sin" = true /\
  CFFILibraryType_has_func mathlib_type "tan" = false /\
  CFFILibraryType_get_func_pointer string sample_get_func_pointer
    mathlib_type "tan"
    = Raise (AttributeError
               "Function tan is not present in the library mathlib") /\
  CFFILibraryType_get_func_pointer string sample_get_func_pointer
    mathlib_type "sin" = Return "&sin".
Proof.
  assert (Hinit : CFFILibraryType_init mathlib = Return mathlib_type)
    by reflexivity.
  assert (Hsin : CFFILibraryType_has_func mathlib_type "sin" = true)
    by (vm_compute; reflexivity).
  assert (Htan : CFFILibraryType_has_func mathlib_type "tan" = false)
    by (vm_compute; reflexivity).
  split; [exact Hinit|]. split; [exact Hsin|]. split; [exact Htan|].
  split.
  - apply (library_has_func_get_func_pointer string sample_get_func_pointer
             mathlib mathlib_type "tan" Hinit). exact Htan.
  - apply (library_has_func_get_func_pointer string sample_get_func_pointer
             mathlib mathlib_type "sin" Hinit). exact Hsin.
Defined.

(** C5: when the textual form of the library object does not match the
    pattern, the constructor raises: [re.match] answers [None], and taking
    its group is the attribute error. *)
Theorem library_init_raises_without_match (lib : Lib) :
  (forall n, ~ matches_pattern (lib_str lib) n) ->
  CFFILibraryType_init lib
    = Raise (AttributeError "'NoneType' object has no attribute 'group'").
Proof.
  intros H. apply re_match_group1_None in H.
  unfold CFFILibraryType_init. now rewrite H.
Qed.

Lemma library_init_raises_without_match_witness :
  CFFILibraryType_init not_a_lib
    = Raise (AttributeError "'NoneType' object has no attribute 'group'").
Proof.
  apply (library_init_raises_without_match not_a_lib).
  apply re_match_group1_None. reflexivity.
Defined.

(** C6: a library object whose textual form is [<Lib object for 'libfoo'>]
    is accepted, and the recorded library name is [libfoo]. *)
Theorem library_init_records_libfoo (lib : Lib) :
  lib_str lib = "<Lib object for 'libfoo'>" ->
  exists self,
    CFFILibraryType_init lib = Return self /\ _lib_name self = "libfoo".
Proof.
  intros H.
  destruct (CFFILibraryType_init_matches lib "libfoo") as (self & Hs & Hn & _).
  - split; [discriminate|]. split.
    + simpl. repeat split; discriminate.
    + exists EmptyString. now rewrite H.
  - now exists self.
Qed.

Lemma library_init_records_libfoo_witness :
  exists self,
    CFFILibraryType_init libfoo = Return self /\ _lib_name self = "libfoo".
Proof.
  apply (library_init_records_libfoo libfoo). reflexivity.
Defined.

(** Text after the closing literal does not prevent the match. *)
Example re_match_group1_trailing :
  re_match_group1 "<Lib object for 'libfoo'> at 0x7f" = Some "libfoo".
Proof. reflexivity. Qed.

Example re_match_group1_empty_name :
  re_match_group1 "<Lib object for ''>" = None.
Proof. reflexivity. Qed.

(** ** Negative answers are ordinary results *)

(** C7: a negative answer of a conversion query is the ordinary result
    [None]: the queries of a struct instance type never raise, and those of
    a struct reference type answer [None] on an unrelated type, pass on a
    no-conversion verdict of the context as [None], and can only raise what
    the context's own [can_convert] raised. *)
Theorem can_convert_negative_is_ordinary_result
    (s : CFFIStructInstanceType) (r : CFFIStructRefType)
    (ctx : ConversionContext) :
  (forall T, T <> voidptr ->
     result (CFFIStructInstanceType_can_convert_to s ctx T) = Return None /\
     result (CFFIStructInstanceType_can_convert_from s ctx T) = Return None) /\
  (forall T e,
     result (CFFIStructInstanceType_can_convert_to s ctx T) <> Raise e /\
     result (CFFIStructInstanceType_can_convert_from s ctx T) <> Raise e) /\
  (forall X, ~ is_struct_type X ->
     result (CFFIStructRefType_can_convert_to r ctx X) = Return None /\
     result (CFFIStructRefType_can_convert_from r ctx X) = Return None) /\
  (forall X, can_convert ctx (dtype (super r)) X = Return None ->
     result (CFFIStructRefType_can_convert_to r ctx X) = Return None /\
     result (CFFIStructRefType_can_convert_from r ctx X) = Return None) /\
  (forall X e,
     result (CFFIStructRefType_can_convert_to r ctx X) = Raise e \/
     result (CFFIStructRefType_can_convert_from r ctx X) = Raise e ->
     can_convert ctx (dtype (super r)) X = Raise e).
Proof.
  unfold CFFIStructInstanceType_can_convert_to,
    CFFIStructInstanceType_can_convert_from,
    CFFIStructRefType_can_convert_to, CFFIStructRefType_can_convert_from.
  split; [|split; [|split; [|split]]].
  - intros T H. apply type_eq_not_voidptr in H. rewrite H. now split.
  - intros T e. destruct (type_eq T voidptr); split; discriminate.
  - intros X H. apply isinstance_struct_false in H. rewrite H. now split.
  - intros X H.
    destruct (isinstance X cls_CFFIStructRefType
              || isinstance X cls_CFFIStructInstanceType);
      split; solve [exact H | reflexivity].
  - intros X e.
    destruct (isinstance X cls_CFFIStructRefType
              || isinstance X cls_CFFIStructInstanceType);
      simpl; intros [H|H]; solve [exact H | discriminate].
Qed.

Lemma can_convert_negative_is_ordinary_result_witness :
  (result (CFFIStructInstanceType_can_convert_to node_struct picky_ctx int32)
     = Return None /\
   result (CFFIStructInstanceType_can_convert_from node_struct picky_ctx int32)
     = Return None) /\
  (result (CFFIStructRefType_can_convert_to ref_int32 picky_ctx voidptr)
     = Return None /\
   result (CFFIStructRefType_can_convert_from ref_int32 picky_ctx voidptr)
     = Return None).
Proof.
  pose proof (can_convert_negative_is_ordinary_result
                node_struct ref_int32 picky_ctx) as (H1 & _ & H3 & _).
  split.
  - apply H1. discriminate.
  - apply H3. intros [[r Hr]|[s Hs]]; discriminate.
Defined.

(** ** The session type *)

(** C8: the call signatures of a session type are the empty list, paired
    with the flag [True]. *)
Theorem FFIType_get_call_signatures_empty_variadic
    (Signature : Type) (self : FFIType) :
  @FFIType_get_call_signatures Signature self = ([], true).
Proof. reflexivity. Qed.

(** ** Building a struct reference type *)


(** ** The two directions of a struct reference type *)

(** C10: for a struct reference type the two queries agree on every context
    and argument, in their answer and in the calls they make.  On a struct
    reference or struct instance type both make the one call
    [can_convert(self.dtype, other)], the pointee of [self] first and the
    argument second, and answer with its verdict; the from-direction is not
    the reversed query.  On any other type neither makes a call. *)
Theorem StructRef_can_convert_to_from_agree
    (self : CFFIStructRefType) (ctx : ConversionContext) :
  let P := dtype (super self) in
  (forall other,
     CFFIStructRefType_can_convert_to self ctx other
       = CFFIStructRefType_can_convert_from self ctx other) /\
  (forall other, is_struct_type other ->
     calls (CFFIStructRefType_can_convert_to self ctx other) = [(P, other)] /\
     calls (CFFIStructRefType_can_convert_from self ctx other)
       = [(P, other)] /\
     result (CFFIStructRefType_can_convert_to self ctx other)
       = can_convert ctx P other /\
     result (CFFIStructRefType_can_convert_from self ctx other)
       = can_convert ctx P other) /\
  (forall other, ~ is_struct_type other ->
     calls (CFFIStructRefType_can_convert_to self ctx other) = [] /\
     calls (CFFIStructRefType_can_convert_from self ctx other) = []).
Proof.
  intros P.
  unfold CFFIStructRefType_can_convert_to, CFFIStructRefType_can_convert_from.
  split; [reflexivity|]. split; intros other H.
  - apply isinstance_struct_true in H. rewrite H. now repeat split.
  - apply isinstance_struct_false in H. rewrite H. now split.
Qed.

Lemma StructRef_can_convert_to_from_agree_witness :
  (calls (CFFIStructRefType_can_convert_to ref_int32 picky_ctx
            (StructRefType ref_int32)) = [(int32, StructRefType ref_int32)] /\
   calls (CFFIStructRefType_can_convert_from ref_int32 picky_ctx
            (StructRefType ref_int32)) = [(int32, StructRefType ref_int32)] /\
   result (CFFIStructRefType_can_convert_to ref_int32 picky_ctx
             (StructRefType ref_int32)) = Return (Some safe) /\
   result (CFFIStructRefType_can_convert_from ref_int32 picky_ctx
             (StructRefType ref_int32)) = Return (Some safe)) /\
  (calls (CFFIStructRefType_can_convert_to ref_int32 picky_ctx voidptr) = [] /\
   calls (CFFIStructRefType_can_convert_from ref_int32 picky_ctx voidptr)
     = []).
Proof.
  split.
  - apply (proj1 (proj2 (StructRef_can_convert_to_from_agree
                           ref_int32 picky_ctx)) (StructRefType ref_int32)).
    left. exists ref_int32. reflexivity.
  - apply (proj2 (proj2 (StructRef_can_convert_to_from_agree
                           ref_int32 picky_ctx)) voidptr).
    intros [[r Hr]|[s Hs]]; discriminate.
Defined.

(** * Further properties of the module *)

(** ** Strings *)

Lemma append_length (s t : string) :
  String.length (s +:+ t) = String.length s + String.length t.
Proof. induction s as [|a s IH]; simpl; [reflexivity|]. now rewrite IH. Qed.

Lemma append_assoc (s t u : string) : (s +:+ t) +:+ u = s +:+ t +:+ u.
Proof.
  induction s as [|a s IH]; [reflexivity|].
  change (String a ((s +:+ t) +:+ u) = String a (s +:+ t +:+ u)).
  now rewrite IH.
Qed.

Lemma append_cancel_r (s s' t : string) : s +:+ t = s' +:+ t -> s = s'.
Proof.
  revert s'. induction s as [|a s IH]; intros [|b s'] H.
  - reflexivity.
  - apply (f_equal String.length) in H.
    rewrite !append_length in H. simpl in H. lia.
  - apply (f_equal String.length) in H.
    rewrite !append_length in H. simpl in H. lia.
  - change (String a (s +:+ t) = String b (s' +:+ t)) in H.
    injection H as -> H. f_equal. now apply IH.
Qed.

Lemma append_neq_self (s t : string) : t <> EmptyString -> s +:+ t <> s.
Proof.
  intros Ht H. apply (f_equal String.length) in H.
  rewrite append_length in H. destruct t; [contradiction|]. simpl in H. lia.
Qed.


(** ** Constructing a library type *)

Lemma matches_pattern_unique (s n n' : string) :
  matches_pattern s n -> matches_pattern s n' -> n = n'.
Proof.
  intros H H'. apply re_match_group1_complete in H, H'. congruence.
Qed.

(** X1: the constructor of the library type succeeds exactly on the library
    objects whose textual form starts with the opening literal, a non-empty
    name without a quote and the closing literal; whatever follows is not
    looked at. *)
Theorem library_init_succeeds_iff_match (lib : Lib) :
  (exists self, CFFILibraryType_init lib = Return self)
  <-> (exists n, matches_pattern (lib_str lib) n).
Proof.
  split.
  - intros [self H]. unfold CFFILibraryType_init in H.
    destruct (re_match_group1 (lib_str lib)) as [n|] eqn:E; [|discriminate].
    exists n. now apply re_match_group1_sound.
  - intros [n H].
    destruct (CFFILibraryType_init_matches lib n H) as (self & Hs & _).
    now exists self.
Qed.

(** X2: a library type that was built carries a non-empty library name
    without a quote, the one name the textual form of the library object
    quotes, and is itself named [cffi_lib<NAME>] after it. *)
Theorem library_init_name_invariant (lib : Lib) (self : CFFILibraryType) :
  CFFILibraryType_init lib = Return self ->
  _lib_name self <> EmptyString /\
  quote_free (_lib_name self) /\
  matches_pattern (lib_str lib) (_lib_name self) /\
  (forall n, matches_pattern (lib_str lib) n -> n = _lib_name self) /\
  lib_type_name self = "cffi_lib<" +:+ _lib_name self +:+ ">".
Proof.
  unfold CFFILibraryType_init.
  destruct (re_match_group1 (lib_str lib)) as [n|] eqn:E; [|discriminate].
  intros [= <-]. simpl.
  apply re_match_group1_sound in E.
  pose proof E as (Hne & Hq & _).
  repeat split; try assumption.
  - destruct E as (_ & _ & rest & ->). now exists rest.
  - intros n' H'. now apply (matches_pattern_unique (lib_str lib)).
Qed.

Lemma library_init_name_invariant_witness :
  _lib_name mathlib_type <> EmptyString /\
  quote_free (_lib_name mathlib_type) /\
  matches_pattern (lib_str mathlib) (_lib_name mathlib_type) /\
  (forall n, matches_pattern (lib_str mathlib) n -> n = _lib_name mathlib_type) /\
  lib_type_name mathlib_type = "cffi_lib<" +:+ _lib_name mathlib_type +:+ ">".
Proof.
  apply (library_init_name_invariant mathlib mathlib_type). reflexivity.
Defined.

(** X3: two library objects with the same textual form give library types
    with the same name, whatever functions they export; the name of a
    library type in turn determines the library name. *)
Theorem library_type_name_from_str
    (lib lib' : Lib) (self self' : CFFILibraryType) :
  CFFILibraryType_init lib = Return self ->
  CFFILibraryType_init lib' = Return self' ->
  (lib_str lib = lib_str lib' -> lib_type_name self = lib_type_name self') /\
  (lib_type_name self = lib_type_name self' <-> _lib_name self = _lib_name self').
Proof.
  intros H H'.
  pose proof (library_init_name_invariant _ _ H) as (_ & _ & Hm & _ & Hn).
  pose proof (library_init_name_invariant _ _ H') as (_ & _ & _ & Hu' & Hn').
  assert (Hiff : lib_type_name self = lib_type_name self'
                 <-> _lib_name self = _lib_name self').
  { rewrite Hn, Hn'. split; [|now intros ->].
    intros E. apply String.app_inj in E. now apply append_cancel_r in E. }
  split; [|exact Hiff].
  intros Es. apply Hiff. rewrite Es in Hm. now apply Hu'.
Qed.

Lemma library_type_name_from_str_witness :
  lib_type_name mathlib_type = lib_type_name mathlib_bare_type /\
  (lib_type_name mathlib_type = lib_type_name mathlib_bare_type
   <-> _lib_name mathlib_type = _lib_name mathlib_bare_type).
Proof.
  destruct (library_type_name_from_str mathlib mathlib_bare
              mathlib_type mathlib_bare_type eq_refl eq_refl) as [H1 H2].
  split; [apply H1; reflexivity|exact H2].
Defined.

(** ** Names of the other types *)



(** X6: the name of an owning pointer type is the name of the borrowed
    pointer type to the same pointee followed by the marker [(Owning)]; the
    two names never coincide, and the constructor stores its arguments. *)
Theorem CFFIPointer_init_owning_marker
    (CPointer_name : Ty -> string) (d : Ty) (o : bool) :
  dtype (CFFIPointer_init CPointer_name d o) = d /\
  owning (CFFIPointer_init CPointer_name d o) = o /\
  pointer_name (CFFIPointer_init CPointer_name d true)
    = pointer_name (CFFIPointer_init CPointer_name d false) +:+ "(Owning)" /\
  pointer_name (CFFIPointer_init CPointer_name d true)
    <> pointer_name (CFFIPointer_init CPointer_name d false).
Proof.
  split; [reflexivity|]. split; [reflexivity|].
  assert (E : pointer_name (CFFIPointer_init CPointer_name d true)
              = pointer_name (CFFIPointer_init CPointer_name d false)
                +:+ "(Owning)").
  { unfold CFFIPointer_init, pointer_name.
    now rewrite !append_assoc. }
  split; [exact E|]. rewrite E. now apply append_neq_self.
Qed.

(** ** Building struct reference types *)

(** The initialiser succeeds exactly on the types with a [dtype], and what
    it sets up depends on that pointee alone. *)
Lemma CFFIStructRefType_init_dtype
    (CPointer_name : Ty -> string) (t d : Ty) :
  getattr_dtype t = Return d ->
  exists self,
    CFFIStructRefType_init CPointer_name t = Return self /\
    super self = Build_CFFIPointer d false ("Ref#" +:+ name d).
Proof.
  intros H. unfold CFFIStructRefType_init. rewrite H.
  eexists. split; reflexivity.
Qed.

(** X7: the initialiser of a struct reference type succeeds on every type
    that has a [dtype], which every instance of the host's [CPointer] has
    (its plain pointers, the pointer types of this module, the struct
    reference types): the result has that pointee, is borrowed, is named
    [Ref#] plus the name of the pointee and has the key (pointee, [False]).
    On a type without [dtype] it raises the error of the attribute access,
    as on a library, session or struct instance type. *)
Theorem StructRef_init_needs_dtype (CPointer_name : Ty -> string) :
  (forall t, isinstance t (cls_HostOf "CPointer") = true ->
     exists d, getattr_dtype t = Return d) /\
  (forall t d, getattr_dtype t = Return d ->
     exists self,
       CFFIStructRefType_init CPointer_name t = Return self /\
       dtype (super self) = d /\
       owning (super self) = false /\
       name (StructRefType self) = "Ref#" +:+ name d /\
       key (StructRefType self) = KeyPair d false) /\
  (forall t e, getattr_dtype t = Raise e ->
     CFFIStructRefType_init CPointer_name t = Raise e) /\
  (forall l, CFFIStructRefType_init CPointer_name (LibraryType l)
     = Raise (AttributeError
                "'CFFILibraryType' object has no attribute 'dtype'")) /\
  (forall f, CFFIStructRefType_init CPointer_name (SessionType f)
     = Raise (AttributeError "'FFIType' object has no attribute 'dtype'")) /\
  (forall s, CFFIStructRefType_init CPointer_name (StructInstanceType s)
     = Raise (AttributeError
                "'CFFIStructInstanceType' object has no attribute 'dtype'")).
Proof.
  split; [|split; [|split; [|repeat split]]].
  - intros t Ht.
    destruct t as [c n|c n d|l|f|s|p|r]; try discriminate Ht; eauto.
  - intros t d H.
    destruct (CFFIStructRefType_init_dtype CPointer_name t d H)
      as (self & Hs & Hsuper).
    exists self. split; [exact Hs|].
    destruct self as [p t']. simpl in Hsuper. subst p. now repeat split.
  - intros t e H. unfold CFFIStructRefType_init. now rewrite H.
Qed.

Lemma StructRef_init_needs_dtype_witness :
  (exists d, getattr_dtype (HostTypeOf "CPointer" "int32*" int32) = Return d) /\
  (exists self,
     CFFIStructRefType_init sample_CPointer_name
       (HostTypeOf "CPointer" "int32*" int32) = Return self /\
     dtype (super self) = int32 /\
     owning (super self) = false /\
     name (StructRefType self) = "Ref#" +:+ name int32 /\
     key (StructRefType self) = KeyPair int32 false) /\
  CFFIStructRefType_init sample_CPointer_name int32
    = Raise (AttributeError "'Integer' object has no attribute 'dtype'").
Proof.
  pose proof (StructRef_init_needs_dtype sample_CPointer_name)
    as (H1 & H2 & H3 & _).
  split; [|split].
  - apply H1. reflexivity.
  - apply H2. reflexivity.
  - apply H3. reflexivity.
Defined.

(** X8: struct reference types initialised from two types with the same
    pointee, whatever the class and the ownership of the two, have the same
    pointee, ownership, name and key, and compare equal. *)
Theorem StructRef_init_forgets_source
    (CPointer_name : Ty -> string) (t t' d : Ty) :
  getattr_dtype t = Return d ->
  getattr_dtype t' = Return d ->
  exists r r',
    CFFIStructRefType_init CPointer_name t = Return r /\
    CFFIStructRefType_init CPointer_name t' = Return r' /\
    super r = super r' /\
    key (StructRefType r) = key (StructRefType r') /\
    type_eq (StructRefType r) (StructRefType r') = true.
Proof.
  intros H H'.
  destruct (CFFIStructRefType_init_dtype CPointer_name t d H)
    as (r & Hr & Hs).
  destruct (CFFIStructRefType_init_dtype CPointer_name t' d H')
    as (r' & Hr' & Hs').
  exists r, r'. split; [exact Hr|]. split; [exact Hr'|].
  split; [congruence|]. split.
  - simpl. congruence.
  - rewrite type_eq_struct_ref, Hs, Hs'. simpl.
    now rewrite type_eq_refl.
Qed.

Lemma StructRef_init_forgets_source_witness :
  exists r r',
    CFFIStructRefType_init sample_CPointer_name (PointerType borrowed_int32)
      = Return r /\
    CFFIStructRefType_init sample_CPointer_name (PointerType owning_int32)
      = Return r' /\
    super r = super r' /\
    key (StructRefType r) = key (StructRefType r') /\
    type_eq (StructRefType r) (StructRefType r') = true.
Proof.
  apply (StructRef_init_forgets_source sample_CPointer_name
           (PointerType borrowed_int32) (PointerType owning_int32) int32);
    reflexivity.
Defined.

(** X9: initialising a struct reference type from a struct reference type
    that the initialiser built gives the argument again, as a type: the
    result has the pointee, ownership, name and key of the argument and
    compares equal to it. *)
Theorem StructRef_init_rewrap
    (CPointer_name : Ty -> string) (t : Ty) (r : CFFIStructRefType) :
  CFFIStructRefType_init CPointer_name t = Return r ->
  exists r',
    CFFIStructRefType_init CPointer_name (StructRefType r) = Return r' /\
    super r' = super r /\
    key (StructRefType r') = key (StructRefType r) /\
    type_eq (StructRefType r') (StructRefType r) = true.
Proof.
  unfold CFFIStructRefType_init.
  destruct (getattr_dtype t) as [d|e]; [|discriminate].
  intros [= <-]. eexists. split; [reflexivity|]. simpl.
  split; [reflexivity|]. split; [reflexivity|].
  rewrite type_eq_struct_ref. simpl. now rewrite type_eq_refl.
Qed.

Lemma StructRef_init_rewrap_witness :
  exists r',
    CFFIStructRefType_init sample_CPointer_name (StructRefType ref_int32)
      = Return r' /\
    super r' = super ref_int32 /\
    key (StructRefType r') = key (StructRefType ref_int32) /\
    type_eq (StructRefType r') (StructRefType ref_int32) = true.
Proof.
  apply (StructRef_init_rewrap sample_CPointer_name
           (PointerType borrowed_int32) ref_int32).
  reflexivity.
Defined.

(** ** What the conversion queries refuse *)

(** X10: a struct reference type answers no-conversion, without asking the
    context, for every plain pointer type, the one it was built from
    included, and for the opaque pointer type; a struct instance type in
    turn answers no-conversion for every struct reference type and every
    struct instance type. *)
Theorem struct_queries_refusals
    (r : CFFIStructRefType) (s : CFFIStructInstanceType)
    (ctx : ConversionContext) :
  (forall p,
     CFFIStructRefType_can_convert_to r ctx (PointerType p)
       = (Return None, []) /\
     CFFIStructRefType_can_convert_from r ctx (PointerType p)
       = (Return None, [])) /\
  (CFFIStructRefType_can_convert_to r ctx voidptr = (Return None, []) /\
   CFFIStructRefType_can_convert_from r ctx voidptr = (Return None, [])) /\
  (forall X, is_struct_type X ->
     CFFIStructInstanceType_can_convert_to s ctx X = (Return None, []) /\
     CFFIStructInstanceType_can_convert_from s ctx X = (Return None, [])).
Proof.
  split; [|split].
  - intros p. now split.
  - now split.
  - intros X HX.
    assert (E : type_eq X voidptr = false).
    { apply type_eq_not_voidptr.
      destruct HX as [[r' ->]|[s' ->]]; discriminate. }
    unfold CFFIStructInstanceType_can_convert_to,
      CFFIStructInstanceType_can_convert_from.
    rewrite E. now split.
Qed.

Lemma struct_queries_refusals_witness :
  CFFIStructInstanceType_can_convert_to node_struct picky_ctx
    (StructRefType ref_int32) = (Return None, []) /\
  CFFIStructInstanceType_can_convert_from node_struct picky_ctx
    (StructRefType ref_int32) = (Return None, []).
Proof.
  apply (proj2 (proj2 (struct_queries_refusals ref_int32 node_struct
                         picky_ctx)) (StructRefType ref_int32)).
  left. exists ref_int32. reflexivity.
Defined.

(** ** Initialising the use cases *)

Module UsecasesFacts.

Import Usecases.

Section Facts.

Variable Session : Type.
Variable Function : Type.

Abbreviation State := (State Session Function).
Abbreviation Namespace := (Namespace Function).

(** *** Sequences of assignments *)

Lemma assign_attrs_counters (v : option Namespace)
    (ps : list (string * string)) :
  forall g : State,
    inline_loads (assign_attrs v ps g).1 = inline_loads g /\
    ool_loads (assign_attrs v ps g).1 = ool_loads g.
Proof.
  induction ps as [|[t a] ps IH]; intros g; simpl; [now split|].
  unfold assign_attr. destruct v as [ns|]; [|now split].
  destruct (ns a) as [f|]; [|now split].
  destruct (IH (bind_global t (FunctionObject f) g)) as [H1 H2].
  now rewrite H1, H2.
Qed.

Lemma assign_attrs_frame (v : option Namespace)
    (ps : list (string * string)) (k : string) :
  k ∉ ps.*1 ->
  forall g : State, globals (assign_attrs v ps g).1 !! k = globals g !! k.
Proof.
  induction ps as [|[t a] ps IH]; intros Hk g; simpl; [reflexivity|].
  simpl in Hk. apply not_elem_of_cons in Hk as [Hkt Hk].
  unfold assign_attr. destruct v as [ns|]; [|reflexivity].
  destruct (ns a) as [f|]; [|reflexivity].
  rewrite (IH Hk). simpl. now apply lookup_insert_ne.
Qed.

Lemma assign_attrs_agree (v : option Namespace)
    (ps : list (string * string)) (K : string -> Prop) :
  forall g1 g2 : State,
    (forall k, K k -> globals g1 !! k = globals g2 !! k) ->
    (assign_attrs v ps g1).2 = (assign_attrs v ps g2).2 /\
    (forall k, K k ->
       globals (assign_attrs v ps g1).1 !! k
         = globals (assign_attrs v ps g2).1 !! k).
Proof.
  induction ps as [|[t a] ps IH]; intros g1 g2 H; simpl; [now split|].
  unfold assign_attr. destruct v as [ns|]; [|now split].
  destruct (ns a) as [f|]; [|now split].
  apply IH. intros k Hk. simpl.
  destruct (decide (t = k)) as [->|Hne].
  - now rewrite !lookup_insert_eq.
  - rewrite !lookup_insert_ne by exact Hne. now apply H.
Qed.

Lemma assign_attrs_returned (ns : Namespace) (ps : list (string * string)) :
  forall g : State,
    (assign_attrs (Some ns) ps g).2 = Returned
    <-> Forall (fun p => is_Some (ns p.2)) ps.
Proof.
  induction ps as [|[t a] ps IH]; intros g; simpl.
  - split; [constructor|reflexivity].
  - rewrite Forall_cons. simpl. destruct (ns a) as [f|].
    + rewrite IH. split; [intros H; split; [eauto|exact H]|now intros [_ H]].
    + split; [discriminate|]. intros [[f Hf] _]. discriminate.
Qed.

Lemma assign_attrs_bound (ns : Namespace) (ps : list (string * string)) :
  forall g : State,
    (assign_attrs (Some ns) ps g).2 = Returned ->
    NoDup ps.*1 ->
    forall t a, (t, a) ∈ ps ->
      globals (assign_attrs (Some ns) ps g).1 !! t = FunctionObject <$> ns a.
Proof.
  induction ps as [|[t0 a0] ps IH]; intros g He Hnd t a Hin.
  - inversion Hin.
  - simpl in *. apply NoDup_cons in Hnd as [Ht0 Hnd].
    destruct (ns a0) as [f|] eqn:Ea0; [|discriminate].
    apply elem_of_cons in Hin as [[= -> ->]|Hin].
    + rewrite assign_attrs_frame by exact Ht0. simpl.
      rewrite lookup_insert_eq. now rewrite Ea0.
    + now apply IH.
Qed.

Lemma assign_attrs_last (v : option Namespace)
    (front : list (string * string)) (t a : string) :
  t ∉ front.*1 ->
  forall g : State,
    (assign_attrs v (front ++ [(t, a)]) g).2 = Raised ->
    globals (assign_attrs v (front ++ [(t, a)]) g).1 !! t = globals g !! t.
Proof.
  induction front as [|[t0 a0] front IH]; intros Ht g; simpl.
  - unfold assign_attr. destruct v as [ns|]; [|reflexivity].
    destruct (ns a) as [f|]; [discriminate|reflexivity].
  - simpl in Ht. apply not_elem_of_cons in Ht as [Hne Ht].
    unfold assign_attr. destruct v as [ns|]; [|reflexivity].
    destruct (ns a0) as [f|]; [|reflexivity].
    intros He. rewrite (IH Ht _ He). simpl.
    apply lookup_insert_ne. congruence.
Qed.

Lemma assign_attrs_None (ps : list (string * string)) (g : State) :
  ps <> [] -> assign_attrs None ps g = (g, Raised).
Proof. destruct ps as [|[t a] ps]; [contradiction|reflexivity]. Qed.

(** *** The two initialisers *)

Variable load : nat -> option (Session * Namespace).
Variable load_ool : nat -> option (Session * option Namespace).

(** X11: [init] returns at once, changing nothing, when [ffi] is bound to
    anything but [None].  Otherwise it loads.  If the load raises, the
    globals are as they were.  If the load returns, [ffi] is bound before
    the wrappers are read from the library, so it stays bound even when one
    of the three reads raises, and every later call returns at once without
    a load; the call returns exactly when the three reads succeed, and then
    the three wrappers are bound to what was read, while after a raise
    [cffi_bool] is as it was. *)
Theorem init_loads_once (g g' : State) (e : Ending) :
  init load g = (g', e) ->
  (forall o, globals g !! "ffi" = Some o -> o <> PyNone ->
     g' = g /\ e = Returned) /\
  (globals g !! "ffi" = Some PyNone -> load (inline_loads g) = None ->
     e = Raised /\ globals g' = globals g /\
     inline_loads g' = S (inline_loads g)) /\
  (forall s dll,
     globals g !! "ffi" = Some PyNone ->
     load (inline_loads g) = Some (s, dll) ->
     globals g' !! "ffi" = Some (SessionObject s) /\
     inline_loads g' = S (inline_loads g) /\
     init load g' = (g', Returned) /\
     (e = Returned <->
        is_Some (dll "_numba_test_sin") /\ is_Some (dll "_numba_test_cos") /\
        is_Some (dll "_numba_test_boolean")) /\
     (e = Returned ->
        globals g' !! "cffi_sin" = FunctionObject <$> dll "_numba_test_sin" /\
        globals g' !! "cffi_cos" = FunctionObject <$> dll "_numba_test_cos" /\
        globals g' !! "cffi_bool"
          = FunctionObject <$> dll "_numba_test_boolean") /\
     (e = Raised -> globals g' !! "cffi_bool" = globals g !! "cffi_bool")).
Proof.
  unfold init. intros H. split; [|split].
  - intros o Ho Hne. rewrite Ho in H.
    destruct o; [contradiction| |]; now injection H as <- <-.
  - intros Ho Hl. rewrite Ho, Hl in H. now injection H as <- <-.
  - intros s dll Ho Hl. rewrite Ho, Hl in H.
    set (g1 := bind_global "ffi" (SessionObject s) (inline_load_attempted g))
      in H.
    assert (Hg' : g' = (assign_attrs (Some dll) inline_wrappers g1).1)
      by now rewrite H.
    assert (He : e = (assign_attrs (Some dll) inline_wrappers g1).2)
      by now rewrite H.
    assert (Hffi : globals g' !! "ffi" = Some (SessionObject s)).
    { rewrite Hg', assign_attrs_frame.
      - apply lookup_insert_eq.
      - simpl. rewrite !not_elem_of_cons. repeat split; try discriminate.
        apply not_elem_of_nil. }
    split; [exact Hffi|]. split.
    { rewrite Hg'.
      now rewrite (proj1 (assign_attrs_counters (Some dll) inline_wrappers g1)). }
    split; [now rewrite Hffi|]. split; [|split].
    + rewrite He, assign_attrs_returned. unfold inline_wrappers.
      rewrite !Forall_cons. simpl. split.
      * now intros (H1 & H2 & H3 & _).
      * intros (H1 & H2 & H3). repeat split; try assumption. constructor.
    + intros Hr. rewrite He in Hr. rewrite Hg'.
      assert (Hnd : NoDup inline_wrappers.*1).
      { simpl. repeat constructor; rewrite ?not_elem_of_cons;
          repeat split; try discriminate; apply not_elem_of_nil. }
      repeat split;
        apply (assign_attrs_bound dll inline_wrappers g1 Hr Hnd);
        unfold inline_wrappers; rewrite !elem_of_cons; tauto.
    + intros Hr. rewrite He in Hr. rewrite Hg'.
      rewrite (assign_attrs_last (Some dll)
                 [("cffi_sin", "_numba_test_sin");
                  ("cffi_cos", "_numba_test_cos")]
                 "cffi_bool" "_numba_test_boolean").
      * simpl. now rewrite lookup_insert_ne by discriminate.
      * simpl. rewrite !not_elem_of_cons. repeat split; try discriminate.
        apply not_elem_of_nil.
      * exact Hr.
Qed.

(** X12: [init_ool] returns at once, changing nothing, when [ffi_ool] is
    bound to anything but [None].  Otherwise it loads.  If the load raises,
    the globals are as they were.  If the load returns, [ffi_ool] is bound
    before the wrappers are read from [mod.lib], so it stays bound even when
    a read raises, and every later call returns at once without a load; the
    call returns exactly when [mod.lib] and its eight attributes can be
    read, and then each wrapper is bound to what was read, while after a
    raise [vector_imag] is as it was. *)
Theorem init_ool_loads_once (g g' : State) (e : Ending) :
  init_ool load_ool g = (g', e) ->
  (forall o, globals g !! "ffi_ool" = Some o -> o <> PyNone ->
     g' = g /\ e = Returned) /\
  (globals g !! "ffi_ool" = Some PyNone -> load_ool (ool_loads g) = None ->
     e = Raised /\ globals g' = globals g /\
     ool_loads g' = S (ool_loads g)) /\
  (forall s mod_lib,
     globals g !! "ffi_ool" = Some PyNone ->
     load_ool (ool_loads g) = Some (s, mod_lib) ->
     globals g' !! "ffi_ool" = Some (SessionObject s) /\
     ool_loads g' = S (ool_loads g) /\
     init_ool load_ool g' = (g', Returned) /\
     (e = Returned <->
        exists lib, mod_lib = Some lib /\
                    Forall (fun p => is_Some (lib p.2)) ool_wrappers) /\
     (e = Returned ->
        forall lib, mod_lib = Some lib ->
        forall t a, (t, a) ∈ ool_wrappers ->
          globals g' !! t = FunctionObject <$> lib a) /\
     (e = Raised ->
        globals g' !! "vector_imag" = globals g !! "vector_imag")).
Proof.
  unfold init_ool. intros H. split; [|split].
  - intros o Ho Hne. rewrite Ho in H.
    destruct o; [contradiction| |]; now injection H as <- <-.
  - intros Ho Hl. rewrite Ho, Hl in H. now injection H as <- <-.
  - intros s mod_lib Ho Hl. rewrite Ho, Hl in H.
    set (g1 := bind_global "ffi_ool" (SessionObject s) (ool_load_attempted g))
      in H.
    assert (Hg' : g' = (assign_attrs mod_lib ool_wrappers g1).1)
      by now rewrite H.
    assert (He : e = (assign_attrs mod_lib ool_wrappers g1).2)
      by now rewrite H.
    assert (Hffi : globals g' !! "ffi_ool" = Some (SessionObject s)).
    { rewrite Hg', assign_attrs_frame.
      - apply lookup_insert_eq.
      - simpl. rewrite !not_elem_of_cons. repeat split; try discriminate.
        apply not_elem_of_nil. }
    split; [exact Hffi|]. split.
    { rewrite Hg'.
      now rewrite (proj2 (assign_attrs_counters mod_lib ool_wrappers g1)). }
    split; [now rewrite Hffi|]. split; [|split].
    + rewrite He. destruct mod_lib as [lib|].
      * rewrite assign_attrs_returned. split.
        -- intros HF. now exists lib.
        -- now intros (lib' & [= <-] & HF).
      * rewrite assign_attrs_None by discriminate. simpl. split.
        -- discriminate.
        -- now intros (lib' & Hlib & _).
    + intros Hr lib -> t a Hin. rewrite He in Hr. rewrite Hg'.
      apply (assign_attrs_bound lib ool_wrappers g1 Hr); [|exact Hin].
      simpl. repeat constructor; rewrite ?not_elem_of_cons;
        repeat split; try discriminate; apply not_elem_of_nil.
    + intros Hr. rewrite He in Hr. rewrite Hg'.
      rewrite (assign_attrs_last mod_lib
                 [("cffi_sin_ool", "sin"); ("cffi_cos_ool", "cos");
                  ("cffi_foo", "foo"); ("cffi_bool_ool", "boolean");
                  ("vsSin", "vsSin"); ("vdSin", "vdSin");
                  ("vector_real", "vector_real")]
                 "vector_imag" "vector_imag").
      * simpl. now rewrite lookup_insert_ne by discriminate.
      * simpl. rewrite !not_elem_of_cons. repeat split; try discriminate.
        apply not_elem_of_nil.
      * exact Hr.
Qed.

(** *** The two initialisers together *)

Lemma State_eq (g1 g2 : State) :
  globals g1 = globals g2 -> inline_loads g1 = inline_loads g2 ->
  ool_loads g1 = ool_loads g2 -> g1 = g2.
Proof. destruct g1, g2; simpl; now intros -> -> ->. Qed.

Lemma names_disjoint (k : string) : k ∈ inline_names -> k ∉ ool_names.
Proof.
  unfold inline_names, ool_names, inline_wrappers, ool_wrappers.
  cbn [fmap list_fmap fst]. rewrite !elem_of_cons.
  intros [->|[->|[->|[->|H]]]]; [| | | |inversion H].
  all: intros H; repeat (destruct H as [H|H]; [discriminate|]);
    inversion H.
Qed.

Lemma init_frame (g : State) :
  ool_loads (init load g).1 = ool_loads g /\
  (forall k, k ∉ inline_names ->
     globals (init load g).1 !! k = globals g !! k).
Proof.
  unfold init.
  destruct (globals g !! "ffi") as [[|s|f]|]; try now split.
  destruct (load (inline_loads g)) as [[s dll]|]; [|now split].
  split.
  - now rewrite (proj2 (assign_attrs_counters _ _ _)).
  - intros k Hk. unfold inline_names in Hk.
    apply not_elem_of_cons in Hk as [Hne Hk].
    rewrite assign_attrs_frame by exact Hk. simpl.
    apply lookup_insert_ne. congruence.
Qed.

Lemma init_ool_frame (g : State) :
  inline_loads (init_ool load_ool g).1 = inline_loads g /\
  (forall k, k ∉ ool_names ->
     globals (init_ool load_ool g).1 !! k = globals g !! k).
Proof.
  unfold init_ool.
  destruct (globals g !! "ffi_ool") as [[|s|f]|]; try now split.
  destruct (load_ool (ool_loads g)) as [[s mod_lib]|]; [|now split].
  split.
  - now rewrite (proj1 (assign_attrs_counters _ _ _)).
  - intros k Hk. unfold ool_names in Hk.
    apply not_elem_of_cons in Hk as [Hne Hk].
    rewrite assign_attrs_frame by exact Hk. simpl.
    apply lookup_insert_ne. congruence.
Qed.

(** What [init] does depends on the globals it declares and on the number
    of loads of its module alone. *)
Lemma init_agree (g1 g2 : State) :
  (forall k, k ∈ inline_names -> globals g1 !! k = globals g2 !! k) ->
  inline_loads g1 = inline_loads g2 ->
  (init load g1).2 = (init load g2).2 /\
  inline_loads (init load g1).1 = inline_loads (init load g2).1 /\
  (forall k, k ∈ inline_names ->
     globals (init load g1).1 !! k = globals (init load g2).1 !! k).
Proof.
  intros H Hn. unfold init.
  rewrite <- (H "ffi") by apply list_elem_of_here. rewrite <- Hn.
  destruct (globals g1 !! "ffi") as [[|s|f]|];
    try (split; [reflexivity|split; [exact Hn|exact H]]).
  destruct (load (inline_loads g1)) as [[s dll]|];
    [|split; [reflexivity|split; [simpl; congruence|exact H]]].
  split; [|split].
  - apply (assign_attrs_agree _ _ (fun k => k ∈ inline_names)).
    intros k Hk. simpl. destruct (decide ("ffi" = k)) as [<-|Hne].
    + now rewrite !lookup_insert_eq.
    + rewrite !lookup_insert_ne by exact Hne. now apply H.
  - rewrite !(proj1 (assign_attrs_counters _ _ _)). simpl. now rewrite Hn.
  - apply (assign_attrs_agree _ _ (fun k => k ∈ inline_names)).
    intros k Hk. simpl. destruct (decide ("ffi" = k)) as [<-|Hne].
    + now rewrite !lookup_insert_eq.
    + rewrite !lookup_insert_ne by exact Hne. now apply H.
Qed.

Lemma init_ool_agree (g1 g2 : State) :
  (forall k, k ∈ ool_names -> globals g1 !! k = globals g2 !! k) ->
  ool_loads g1 = ool_loads g2 ->
  (init_ool load_ool g1).2 = (init_ool load_ool g2).2 /\
  ool_loads (init_ool load_ool g1).1 = ool_loads (init_ool load_ool g2).1 /\
  (forall k, k ∈ ool_names ->
     globals (init_ool load_ool g1).1 !! k
       = globals (init_ool load_ool g2).1 !! k).
Proof.
  intros H Hn. unfold init_ool.
  rewrite <- (H "ffi_ool") by apply list_elem_of_here. rewrite <- Hn.
  destruct (globals g1 !! "ffi_ool") as [[|s|f]|];
    try (split; [reflexivity|split; [exact Hn|exact H]]).
  destruct (load_ool (ool_loads g1)) as [[s mod_lib]|];
    [|split; [reflexivity|split; [simpl; congruence|exact H]]].
  split; [|split].
  - apply (assign_attrs_agree _ _ (fun k => k ∈ ool_names)).
    intros k Hk. simpl. destruct (decide ("ffi_ool" = k)) as [<-|Hne].
    + now rewrite !lookup_insert_eq.
    + rewrite !lookup_insert_ne by exact Hne. now apply H.
  - rewrite !(proj2 (assign_attrs_counters _ _ _)). simpl. now rewrite Hn.
  - apply (assign_attrs_agree _ _ (fun k => k ∈ ool_names)).
    intros k Hk. simpl. destruct (decide ("ffi_ool" = k)) as [<-|Hne].
    + now rewrite !lookup_insert_eq.
    + rewrite !lookup_insert_ne by exact Hne. now apply H.
Qed.

(** X13: the two initialisers work on separate globals: [init] changes no
    global but the four it declares and leaves the count of out-of-line
    loads alone, [init_ool] changes no global but the nine it declares and
    leaves the count of inline loads alone; neither changes how the other
    ends; and the state after both is the same in either order. *)
Theorem init_init_ool_independent (g : State) :
  let gi := (init load g).1 in
  let go := (init_ool load_ool g).1 in
  (forall k, k ∉ inline_names -> globals gi !! k = globals g !! k) /\
  ool_loads gi = ool_loads g /\
  (forall k, k ∉ ool_names -> globals go !! k = globals g !! k) /\
  inline_loads go = inline_loads g /\
  (init_ool load_ool gi).2 = (init_ool load_ool g).2 /\
  (init load go).2 = (init load g).2 /\
  (init_ool load_ool gi).1 = (init load go).1.
Proof.
  intros gi go.
  destruct (init_frame g) as [Hio Hif].
  destruct (init_ool_frame g) as [Hoi Hof].
  assert (Hgi : forall k, k ∈ ool_names -> globals gi !! k = globals g !! k).
  { intros k Hk. apply Hif. intros Hk'. now apply (names_disjoint k). }
  assert (Hgo : forall k, k ∈ inline_names -> globals go !! k = globals g !! k).
  { intros k Hk. apply Hof. now apply names_disjoint. }
  destruct (init_ool_agree gi g Hgi Hio) as (Hoe & Hon & Hog).
  destruct (init_agree go g Hgo Hoi) as (Hie & Hin & Hig).
  split; [exact Hif|]. split; [exact Hio|]. split; [exact Hof|].
  split; [exact Hoi|]. split; [exact Hoe|]. split; [exact Hie|].
  destruct (init_ool_frame gi) as [Hoi' Hof'].
  destruct (init_frame go) as [Hio' Hif'].
  apply State_eq.
  - apply map_eq. intros k.
    destruct (decide (k ∈ inline_names)) as [Hk|Hk].
    + rewrite Hof' by now apply names_disjoint.
      now rewrite Hig.
    + rewrite Hif' by exact Hk.
      destruct (decide (k ∈ ool_names)) as [Hk'|Hk'].
      * now rewrite Hog.
      * rewrite Hof' by exact Hk'. fold go.
        now rewrite Hif, Hof.
  - rewrite Hoi'. now rewrite Hin.
  - rewrite Hio'. now rewrite Hon.
Qed.

End Facts.

(** The second load of the sample loader: [ffi] is bound, the read of
    [_numba_test_cos] raises, and the next call returns at once. *)
Lemma init_loads_once_witness :
  let g := inline_load_attempted (@imported nat string) in
  let r := init sample_load_inline g in
  globals r.1 !! "ffi" = Some (SessionObject 1) /\
  inline_loads r.1 = 2 /\
  init sample_load_inline r.1 = (r.1, Returned) /\
  r.2 = Raised /\
  globals r.1 !! "cffi_bool" = None.
Proof.
  intros g r.
  pose proof (init_loads_once nat string sample_load_inline g r.1 r.2
                eq_refl)
    as (_ & _ & H).
  destruct (H 1 (fun attr => if String.eqb attr "_numba_test_cos"
                             then None else Some attr) eq_refl eq_refl)
    as (H1 & H2 & H3 & _ & _ & H6).
  split; [exact H1|]. split; [exact H2|]. split; [exact H3|].
  split; [reflexivity|]. now rewrite H6.
Defined.

Lemma init_ool_loads_once_witness :
  let g := @imported nat string in
  let r := init_ool sample_load_ool g in
  globals r.1 !! "ffi_ool" = Some (SessionObject 0) /\
  ool_loads r.1 = 1 /\
  init_ool sample_load_ool r.1 = (r.1, Returned) /\
  r.2 = Returned /\
  globals r.1 !! "cffi_foo" = Some (FunctionObject "foo").
Proof.
  intros g r.
  pose proof (init_ool_loads_once nat string sample_load_ool g r.1 r.2
                eq_refl)
    as (_ & _ & H).
  destruct (H 0 (Some (fun attr => Some attr)) eq_refl eq_refl)
    as (H1 & H2 & H3 & _ & H5 & _).
  split; [exact H1|]. split; [exact H2|]. split; [exact H3|].
  split; [reflexivity|].
  apply (H5 eq_refl (fun attr => Some attr) eq_refl "cffi_foo" "foo").
  unfold ool_wrappers. rewrite !elem_of_cons. tauto.
Defined.

End UsecasesFacts.

(** * The linked list library *)

Module LinkedListFacts.

Import LinkedList.

(** ** Lists in memory *)

Lemma is_list_functional (m : Memory) (p : pointer)
    (l1 l2 : list (address * Z)) :
  is_list m p l1 -> is_list m p l2 -> l1 = l2.
Proof.
  revert p l2. induction l1 as [|[a v] l1 IH]; intros p [|[b w] l2]; simpl.
  - reflexivity.
  - intros -> [? _]. discriminate.
  - intros [-> _] ?. discriminate.
  - intros [-> (q & Hq & H1)] [[= <-] (q' & Hq' & H2)].
    rewrite Hq in Hq'. injection Hq' as <- <-.
    f_equal. now apply (IH q).
Qed.

Lemma is_list_suffix (m : Memory) (p : pointer) (l1 l2 : list (address * Z)) :
  is_list m p (l1 ++ l2) -> exists q, is_list m q l2.
Proof.
  revert p. induction l1 as [|[a v] l1 IH]; intros p; simpl.
  - intros H. now exists p.
  - intros [_ (q & _ & H)]. now apply (IH q).
Qed.

Lemma is_list_NoDup (m : Memory) (p : pointer) (cells : list (address * Z)) :
  is_list m p cells -> NoDup (cells.*1).
Proof.
  revert p. induction cells as [|[a v] rest IH]; intros p H; simpl.
  - constructor.
  - pose proof H as [-> (q & Hq & Hrest)].
    constructor; [|now apply (IH q)].
    intros Hin. apply list_elem_of_fmap in Hin as ([b w] & Hb & Hin).
    simpl in Hb. subst b.
    apply list_elem_of_split in Hin as (l1 & l2 & ->).
    destruct (is_list_suffix m q l1 ((a, w) :: l2) Hrest) as [q' Hsuf].
    pose proof Hsuf as [-> _].
    pose proof (is_list_functional m (Some a) _ _ H Hsuf) as E.
    apply (f_equal length) in E. simpl in E.
    rewrite length_app in E. simpl in E. lia.
Qed.

Lemma is_list_frame (m m' : Memory) (p : pointer) (cells : list (address * Z)) :
  (forall a, a ∈ cells.*1 -> nodes m' !! a = nodes m !! a) ->
  is_list m p cells -> is_list m' p cells.
Proof.
  revert p. induction cells as [|[a v] rest IH]; intros p Hf; simpl.
  - trivial.
  - intros [-> (q & Hq & Hrest)]. split; [reflexivity|].
    exists q. split.
    + rewrite Hf; [exact Hq|]. simpl. apply list_elem_of_here.
    + apply IH; [|exact Hrest].
      intros b Hb. apply Hf. simpl. now apply list_elem_of_further.
Qed.

(** ** Searching *)

(** X14: on a list laid out in memory, [find_by_val] answers with the
    address of the first node holding the value, and with [NULL] exactly
    when no node holds it; it needs one call per node and one more. *)
Theorem find_by_val_first (fuel : nat) (m : Memory) (p : pointer)
    (cells : list (address * Z)) (val : Z) :
  is_list m p cells -> length cells < fuel ->
  find_by_val fuel m val p = Done (first_with_value val cells) /\
  (first_with_value val cells = None <-> val ∉ cells.*2).
Proof.
  intros Hl Hf. split.
  - revert fuel p Hl Hf.
    induction cells as [|[a v] rest IH]; intros [|fuel] p Hl Hf;
      simpl in *; try lia.
    + now subst p.
    + destruct Hl as [-> (q & Hq & Hrest)].
      unfold load_node. rewrite Hq. simpl.
      destruct (Z.eqb v val); [reflexivity|].
      apply IH; [exact Hrest|lia].
  - clear. induction cells as [|[a v] rest IH]; simpl.
    + split; [|reflexivity]. intros _ H. inversion H.
    + destruct (Z.eqb_spec v val) as [->|Hne].
      * split; [discriminate|]. intros H. exfalso. apply H.
        apply list_elem_of_here.
      * rewrite IH. split.
        -- intros H Hin. apply elem_of_cons in Hin as [E|Hin];
             [congruence|contradiction].
        -- intros H Hin. apply H. now apply list_elem_of_further.
Qed.

Lemma sample_is_list :
  is_list sample_memory (Some 10%positive) sample_cells.
Proof.
  simpl. split; [reflexivity|].
  exists (Some 11%positive). split; [reflexivity|].
  split; [reflexivity|]. exists None. now split.
Qed.

Lemma find_by_val_first_witness :
  find_by_val 3 sample_memory 7 (Some 10%positive)
    = Done (first_with_value 7 sample_cells) /\
  (first_with_value 7 sample_cells = None <-> (7%Z) ∉ sample_cells.*2).
Proof.
  apply (find_by_val_first 3 sample_memory (Some 10%positive) sample_cells 7).
  - exact sample_is_list.
  - simpl. lia.
Defined.

(** ** Measuring *)

Lemma list_len_loop_counts (m : Memory) (cells : list (address * Z)) :
  forall (fuel : nat) (p : pointer) (len : Z),
    is_list m p cells -> cells <> [] ->
    (len + Z.of_nat (length cells) <= INT32_MAX)%Z ->
    length cells <= fuel ->
    list_len_loop fuel m p len = Done (len + Z.of_nat (length cells))%Z.
Proof.
  induction cells as [|[a v] rest IH]; intros fuel p len Hl Hne Hmax Hf;
    [contradiction|].
  destruct fuel as [|fuel]; [simpl in Hf; lia|].
  destruct Hl as [-> (q & Hq & Hrest)].
  simpl. simpl length in Hmax, Hf.
  destruct (Z.leb_spec INT32_MAX len) as [Hle|_]; [lia|].
  unfold load_node. rewrite Hq. simpl.
  destruct rest as [|[b w] rest'].
  - simpl in Hrest. subst q. f_equal; simpl; lia.
  - pose proof Hrest as [-> _].
    rewrite (IH fuel (Some b) (len + 1)%Z); try assumption;
      try discriminate; try lia.
    f_equal; simpl length; lia.
Qed.

(** X15: on a head over a non-empty list of at most [INT32_MAX] nodes,
    [list_len] answers with the number of nodes, given a round of the loop
    per node. *)
Theorem list_len_counts (fuel : nat) (m : Memory) (h : address) (hd : Head)
    (cells : list (address * Z)) :
  heads m !! h = Some hd ->
  is_list m (node hd) cells ->
  cells <> [] ->
  (Z.of_nat (length cells) <= INT32_MAX)%Z ->
  length cells <= fuel ->
  list_len fuel m (Some h) = Done (Z.of_nat (length cells)).
Proof.
  intros Hh Hl Hne Hmax Hf.
  unfold list_len, load_head. rewrite Hh. simpl.
  now rewrite (list_len_loop_counts m cells fuel (node hd) 0).
Qed.

Lemma list_len_counts_witness :
  list_len 2 sample_memory (Some 1%positive) = Done 2%Z.
Proof.
  apply (list_len_counts 2 sample_memory 1%positive
           {| node := Some 10%positive |} sample_cells).
  - reflexivity.
  - exact sample_is_list.
  - discriminate.
  - unfold INT32_MAX. simpl. lia.
  - simpl. lia.
Defined.

Lemma list_sum_loop_adds (m : Memory) (cells : list (address * Z)) :
  forall (fuel : nat) (p : pointer) (sum : Z),
    is_list m p cells -> cells <> [] ->
    sums_fit sum cells ->
    length cells <= fuel ->
    list_sum_loop fuel m p sum = Done (sum + total cells)%Z.
Proof.
  induction cells as [|[a v] rest IH]; intros fuel p sum Hl Hne Hfit Hf;
    [contradiction|].
  destruct fuel as [|fuel]; [simpl in Hf; lia|].
  destruct Hl as [-> (q & Hq & Hrest)].
  destruct Hfit as [Hrange Hfit].
  simpl. simpl length in Hf.
  unfold load_node. rewrite Hq. simpl.
  destruct (Z.ltb_spec (sum + v) INT32_MIN) as [Hlt|_]; [lia|].
  destruct (Z.ltb_spec INT32_MAX (sum + v)) as [Hlt|_]; [lia|].
  simpl.
  destruct rest as [|[b w] rest'].
  - simpl in Hrest. subst q. f_equal; unfold total; simpl; lia.
  - pose proof Hrest as [-> _].
    rewrite (IH fuel (Some b) (sum + v)%Z); try assumption;
      try discriminate; try lia.
    f_equal; unfold total; simpl; lia.
Qed.

(** X16: on a head over a non-empty list whose partial sums stay within
    [int32_t], [list_sum] answers with the sum of the values. *)
Theorem list_sum_adds (fuel : nat) (m : Memory) (h : address) (hd : Head)
    (cells : list (address * Z)) :
  heads m !! h = Some hd ->
  is_list m (node hd) cells ->
  cells <> [] ->
  sums_fit 0 cells ->
  length cells <= fuel ->
  list_sum fuel m (Some h) = Done (total cells).
Proof.
  intros Hh Hl Hne Hfit Hf.
  unfold list_sum, load_head. rewrite Hh. simpl.
  now rewrite (list_sum_loop_adds m cells fuel (node hd) 0).
Qed.

Lemma list_sum_adds_witness :
  list_sum 2 sample_memory (Some 1%positive) = Done 12%Z.
Proof.
  apply (list_sum_adds 2 sample_memory 1%positive
           {| node := Some 10%positive |} sample_cells).
  - reflexivity.
  - exact sample_is_list.
  - discriminate.
  - simpl. unfold INT32_MIN, INT32_MAX. repeat split; lia.
  - simpl. lia.
Defined.

(** X17: on a head over the empty list, as [list_new] makes it, [list_len]
    and [list_sum] go through [NULL] in their first round: both loops read
    [n->next] before they test [n]. *)
Theorem list_len_sum_crash_on_empty (fuel : nat) (m : Memory) (h : address) :
  heads m !! h = Some {| node := None |} ->
  fuel <> 0 ->
  list_len fuel m (Some h) = Crashed NullDereference /\
  list_sum fuel m (Some h) = Crashed NullDereference /\
  (forall m0 m1 p, list_new m0 (Some h) = Done (m1, p) ->
     list_len fuel m1 p = Crashed NullDereference /\
     list_sum fuel m1 p = Crashed NullDereference).
Proof.
  intros Hh Hf. destruct fuel as [|fuel]; [contradiction|].
  unfold list_len, list_sum, load_head. rewrite Hh. simpl.
  split; [reflexivity|]. split; [reflexivity|].
  intros m0 m1 p [= <- <-]. simpl.
  rewrite lookup_insert_eq. simpl. now split.
Qed.

Lemma list_len_sum_crash_on_empty_witness :
  list_len 1 sample_memory (Some 2%positive) = Crashed NullDereference /\
  list_sum 1 sample_memory (Some 2%positive) = Crashed NullDereference.
Proof.
  destruct (list_len_sum_crash_on_empty 1 sample_memory 2%positive)
    as (H1 & H2 & _).
  - reflexivity.
  - discriminate.
  - now split.
Defined.

(** ** Appending *)

Lemma list_append_from_step (fuel : nat) (m : Memory) (loc : NodePtrPtr)
    (val : Z) (new : pointer) (a : address) :
  load_ptr m loc = Done (Some a) ->
  list_append_from (S fuel) m loc val new
    = list_append_from fuel m (NodeNext a) val new.
Proof.
  intros H. unfold list_append_from. simpl. now rewrite H.
Qed.

Lemma load_ptr_NodeNext (m : Memory) (a : address) (p : pointer) :
  load_ptr m (NodeNext a) = Done p <->
  exists nd, nodes m !! a = Some nd /\ next nd = p.
Proof.
  simpl. destruct (nodes m !! a) as [nd|]; simpl.
  - split.
    + intros [= <-]. now exists nd.
    + intros (nd' & [= <-] & <-). reflexivity.
  - split; [discriminate|]. now intros (nd' & ? & _).
Qed.

Lemma load_ptr_HeadNode (m : Memory) (h : address) (p : pointer) :
  load_ptr m (HeadNode h) = Done p <->
  exists hd, heads m !! h = Some hd /\ node hd = p.
Proof.
  simpl. destruct (heads m !! h) as [hd|]; simpl.
  - split.
    + intros [= <-]. now exists hd.
    + intros (hd' & [= <-] & <-). reflexivity.
  - split; [discriminate|]. now intros (hd' & ? & _).
Qed.

(** Appending below a [Node**] that leads to a list: the list grows by the
    new node at its end, and nothing else changes but the one pointer that
    now leads to the new node. *)
Lemma list_append_from_extends (m : Memory) (new : address) (val : Z)
    (cells : list (address * Z)) :
  nodes m !! new = None ->
  forall (fuel : nat) (loc : NodePtrPtr) (p : pointer),
    load_ptr m loc = Done p ->
    is_list m p cells ->
    (forall a, loc = NodeNext a -> a ∉ cells.*1) ->
    length cells < fuel ->
    exists m' p',
      list_append_from fuel m loc val (Some new) = Done m' /\
      load_ptr m' loc = Done p' /\
      is_list m' p' (cells ++ [(new, val)]) /\
      (forall h', loc <> HeadNode h' -> heads m' !! h' = heads m !! h') /\
      (forall b, b ∉ cells.*1 -> b <> new -> loc <> NodeNext b ->
         nodes m' !! b = nodes m !! b) /\
      (forall b nd, loc = NodeNext b -> nodes m !! b = Some nd ->
         exists nd', nodes m' !! b = Some nd' /\ value nd' = value nd).
Proof.
  intros Hnew.
  induction cells as [|[a x] rest IH]; intros fuel loc p Hp Hl Hloc Hf;
    (destruct fuel as [|fuel]; [simpl in Hf; lia|]).
  - simpl in Hl. subst p.
    unfold list_append_from. simpl list_append_walk. rewrite Hp. simpl bind.
    destruct loc as [h|a].
    + apply load_ptr_HeadNode in Hp as (hd & Hh & Hn).
      simpl. rewrite Hh. simpl. rewrite lookup_insert_eq. simpl.
      do 2 eexists. split; [reflexivity|]. simpl.
      rewrite lookup_insert_eq. simpl. split; [reflexivity|].
      split; [|split; [|split]].
      * split; [reflexivity|]. eexists. split; [apply lookup_insert_eq|].
        reflexivity.
      * intros h' Hh'. apply lookup_insert_ne. congruence.
      * intros b _ Hb _. now apply lookup_insert_ne.
      * discriminate.
    + apply load_ptr_NodeNext in Hp as (nd & Ha & Hn).
      assert (Hne : a <> new) by congruence.
      simpl. rewrite Ha. simpl. rewrite lookup_insert_eq. simpl.
      do 2 eexists. split; [reflexivity|]. simpl.
      rewrite lookup_insert_ne by congruence.
      rewrite lookup_insert_eq. simpl. split; [reflexivity|].
      split; [|split; [|split]].
      * split; [reflexivity|]. eexists. split; [apply lookup_insert_eq|].
        reflexivity.
      * reflexivity.
      * intros b _ Hb Hb'.
        rewrite lookup_insert_ne by congruence.
        apply lookup_insert_ne. congruence.
      * intros b nd0 [= <-] Hnd0. eexists.
        rewrite lookup_insert_ne by congruence.
        rewrite lookup_insert_eq. split; [reflexivity|].
        simpl. congruence.
  - pose proof (is_list_NoDup m p _ Hl) as Hnd.
    simpl in Hnd. apply NoDup_cons in Hnd as [Ha_rest _].
    destruct Hl as [-> (q & Hq & Hrest)].
    rewrite (list_append_from_step fuel m loc val (Some new) a Hp).
    destruct (IH fuel (NodeNext a) q) as (m' & p' & Hrun & Hp' & Hl' & Hh' & Hn' & Hv').
    { apply load_ptr_NodeNext. now exists {| value := x; next := q |}. }
    { exact Hrest. }
    { now intros a' [= <-]. }
    { simpl in Hf. lia. }
    exists m', (Some a). split; [exact Hrun|].
    assert (Hloc' : load_ptr m' loc = Done (Some a)).
    { destruct loc as [h|b].
      - apply load_ptr_HeadNode in Hp as (hd & Hh & Hn).
        apply load_ptr_HeadNode. exists hd. split; [|exact Hn].
        rewrite Hh'; [exact Hh|discriminate].
      - apply load_ptr_NodeNext in Hp as (nd & Hb & Hn).
        apply load_ptr_NodeNext. exists nd. split; [|exact Hn].
        assert (Hb' : b ∉ ((a, x) :: rest).*1) by now apply Hloc.
        simpl in Hb'. apply not_elem_of_cons in Hb' as [Hba Hbr].
        rewrite Hn'; [exact Hb|exact Hbr|congruence|congruence]. }
    split; [exact Hloc'|].
    split; [|split; [|split]].
    + simpl. split; [reflexivity|].
      destruct (Hv' a _ eq_refl Hq) as (nd' & Hnd' & Hval).
      apply load_ptr_NodeNext in Hp' as (nd'' & Hnd'' & Hnext).
      rewrite Hnd' in Hnd''. injection Hnd'' as <-.
      exists p'. split; [|exact Hl'].
      rewrite Hnd'. destruct nd' as [v' n']. simpl in *. now subst.
    + intros h' _. apply Hh'. discriminate.
    + intros b Hb Hbn Hbl. simpl in Hb.
      apply not_elem_of_cons in Hb as [Hba Hbr].
      apply Hn'; [exact Hbr|exact Hbn|congruence].
    + intros b nd -> Hb.
      assert (Hb' : b ∉ ((a, x) :: rest).*1) by now apply Hloc.
      simpl in Hb'. apply not_elem_of_cons in Hb' as [Hba Hbr].
      exists nd. split; [|reflexivity].
      rewrite Hn'; [exact Hb|exact Hbr|congruence|congruence].
Qed.

(** X18: [list_append] on a head over a list, with the node [malloc] hands
    out, makes the head lead to the list extended by that node holding the
    value; the other heads and the nodes outside the list stay as they
    were. *)
Theorem list_append_extends (fuel : nat) (m : Memory) (h new : address)
    (hd : Head) (cells : list (address * Z)) (val : Z) :
  heads m !! h = Some hd ->
  is_list m (node hd) cells ->
  nodes m !! new = None ->
  length cells < fuel ->
  exists m' hd',
    list_append fuel m (Some h) val (Some new) = Done m' /\
    heads m' !! h = Some hd' /\
    is_list m' (node hd') (cells ++ [(new, val)]) /\
    (forall h', h' <> h -> heads m' !! h' = heads m !! h') /\
    (forall b, b ∉ cells.*1 -> b <> new -> nodes m' !! b = nodes m !! b).
Proof.
  intros Hh Hl Hnew Hf.
  destruct (list_append_from_extends m new val cells Hnew fuel
              (HeadNode h) (node hd))
    as (m' & p' & Hrun & Hp' & Hl' & Hh' & Hn' & _);
    try assumption; try discriminate.
  { apply load_ptr_HeadNode. now exists hd. }
  apply load_ptr_HeadNode in Hp' as (hd' & Hhd' & <-).
  exists m', hd'. split; [exact Hrun|]. split; [exact Hhd'|].
  split; [exact Hl'|]. split.
  - intros h' Hne. apply Hh'. congruence.
  - intros b Hb Hbn. apply Hn'; [exact Hb|exact Hbn|discriminate].
Qed.

Lemma list_append_extends_witness :
  exists m' hd',
    list_append 3 sample_memory (Some 1%positive) 9 (Some 12%positive)
      = Done m' /\
    heads m' !! 1%positive = Some hd' /\
    is_list m' (node hd') (sample_cells ++ [(12%positive, 9%Z)]) /\
    (forall h', h' <> 1%positive ->
       heads m' !! h' = heads sample_memory !! h') /\
    (forall b, b ∉ sample_cells.*1 -> b <> 12%positive ->
       nodes m' !! b = nodes sample_memory !! b).
Proof.
  apply (list_append_extends 3 sample_memory 1%positive 12%positive
           {| node := Some 10%positive |} sample_cells 9).
  - reflexivity.
  - exact sample_is_list.
  - reflexivity.
  - simpl. lia.
Defined.

(** X19: after [list_append], [list_len] and [list_sum] answer with one node
    more and with the sum increased by the value; this holds from the empty
    list on, on which the two would crash before the first append. *)
Theorem list_append_then_len_sum (fuel : nat) (m : Memory) (h new : address)
    (hd : Head) (cells : list (address * Z)) (val : Z) :
  heads m !! h = Some hd ->
  is_list m (node hd) cells ->
  nodes m !! new = None ->
  (Z.of_nat (length cells) + 1 <= INT32_MAX)%Z ->
  sums_fit 0 (cells ++ [(new, val)]) ->
  length cells < fuel ->
  exists m',
    list_append fuel m (Some h) val (Some new) = Done m' /\
    list_len fuel m' (Some h) = Done (Z.of_nat (length cells) + 1)%Z /\
    list_sum fuel m' (Some h) = Done (total cells + val)%Z.
Proof.
  intros Hh Hl Hnew Hmax Hfit Hf.
  destruct (list_append_from_extends m new val cells Hnew fuel
              (HeadNode h) (node hd))
    as (m' & p' & Hrun & Hp' & Hl' & _);
    try assumption; try discriminate.
  { apply load_ptr_HeadNode. now exists hd. }
  apply load_ptr_HeadNode in Hp' as (hd' & Hhd' & <-).
  exists m'. split; [exact Hrun|].
  assert (Hne : (cells ++ [(new, val)])%list <> []) by now destruct cells.
  assert (Hlen : length (cells ++ [(new, val)])%list = S (length cells)).
  { rewrite length_app. simpl. lia. }
  split.
  - unfold list_len, load_head. rewrite Hhd'. simpl.
    rewrite (list_len_loop_counts m' _ fuel (node hd') 0 Hl' Hne);
      rewrite Hlen; [f_equal; lia|lia|lia].
  - unfold list_sum, load_head. rewrite Hhd'. simpl.
    rewrite (list_sum_loop_adds m' _ fuel (node hd') 0 Hl' Hne Hfit);
      [|lia].
    f_equal. unfold total. rewrite foldr_app. simpl.
    clear. induction cells as [|[a x] rest IH]; simpl; lia.
Qed.

Lemma list_append_then_len_sum_witness :
  exists m',
    list_append 1 sample_memory (Some 2%positive) 9 (Some 12%positive)
      = Done m' /\
    list_len 1 m' (Some 2%positive) = Done 1%Z /\
    list_sum 1 m' (Some 2%positive) = Done 9%Z.
Proof.
  apply (list_append_then_len_sum 1 sample_memory 2%positive 12%positive
           {| node := None |} [] 9).
  - reflexivity.
  - reflexivity.
  - reflexivity.
  - unfold INT32_MAX. simpl. lia.
  - simpl. unfold INT32_MIN, INT32_MAX. repeat split; lia.
  - simpl. lia.
Defined.

(** ** Deleting *)

Lemma delete_node_frees (m : Memory) (cells : list (address * Z)) :
  forall (fuel : nat) (p : pointer),
    is_list m p cells ->
    length cells < fuel ->
    exists m',
      delete_node fuel m p = Done m' /\
      heads m' = heads m /\
      (forall a, a ∈ cells.*1 -> nodes m' !! a = None) /\
      (forall b, b ∉ cells.*1 -> nodes m' !! b = nodes m !! b).
Proof.
  induction cells as [|[a x] rest IH]; intros fuel p Hl Hf;
    (destruct fuel as [|fuel]; [simpl in Hf; lia|]).
  - simpl in Hl. subst p. exists m. simpl. repeat split.
    intros a Ha. inversion Ha.
  - pose proof (is_list_NoDup m p _ Hl) as Hnd.
    simpl in Hnd. apply NoDup_cons in Hnd as [Ha_rest _].
    destruct Hl as [-> (q & Hq & Hrest)].
    destruct (IH fuel q Hrest) as (m1 & Hrun & Hh1 & Hfreed & Hkept).
    { simpl in Hf. lia. }
    simpl. rewrite Hq. simpl. rewrite Hrun. simpl.
    unfold free_node. rewrite (Hkept a Ha_rest), Hq.
    eexists. split; [reflexivity|]. simpl. split; [exact Hh1|]. split.
    + intros b Hb. apply elem_of_cons in Hb as [->|Hb].
      * apply lookup_delete_eq.
      * destruct (decide (a = b)) as [->|Hne];
          [apply lookup_delete_eq|].
        rewrite lookup_delete_ne by exact Hne. now apply Hfreed.
    + intros b Hb. apply not_elem_of_cons in Hb as [Hba Hbr].
      rewrite lookup_delete_ne by congruence. now apply Hkept.
Qed.

(** X20: [delete_list] on a head over a list frees the head and every node
    of the list, and nothing else: the other heads and the nodes outside the
    list stay allocated with their contents. *)
Theorem delete_list_frees (fuel : nat) (m : Memory) (h : address)
    (hd : Head) (cells : list (address * Z)) :
  heads m !! h = Some hd ->
  is_list m (node hd) cells ->
  length cells < fuel ->
  exists m',
    delete_list fuel m (Some h) = Done m' /\
    heads m' !! h = None /\
    (forall a, a ∈ cells.*1 -> nodes m' !! a = None) /\
    (forall h', h' <> h -> heads m' !! h' = heads m !! h') /\
    (forall b, b ∉ cells.*1 -> nodes m' !! b = nodes m !! b).
Proof.
  intros Hh Hl Hf.
  destruct (delete_node_frees m cells fuel (node hd) Hl Hf)
    as (m1 & Hrun & Hh1 & Hfreed & Hkept).
  unfold delete_list, load_head. rewrite Hh. simpl. rewrite Hrun. simpl.
  unfold free_head.
  exists {| nodes := nodes m1; heads := delete h (heads m1) |}.
  split; [now rewrite Hh1, Hh|]. simpl.
  split; [apply lookup_delete_eq|].
  split; [exact Hfreed|]. split; [|exact Hkept].
  intros h' Hne. rewrite lookup_delete_ne by congruence. now rewrite Hh1.
Qed.

Lemma delete_list_frees_witness :
  exists m',
    delete_list 3 sample_memory (Some 1%positive) = Done m' /\
    heads m' !! 1%positive = None /\
    (forall a, a ∈ sample_cells.*1 -> nodes m' !! a = None) /\
    (forall h', h' <> 1%positive ->
       heads m' !! h' = heads sample_memory !! h') /\
    (forall b, b ∉ sample_cells.*1 ->
       nodes m' !! b = nodes sample_memory !! b).
Proof.
  apply (delete_list_frees 3 sample_memory 1%positive
           {| node := Some 10%positive |} sample_cells).
  - reflexivity.
  - exact sample_is_list.
  - simpl. lia.
Defined.

End LinkedListFacts.
